(** * Neural_Flasher: the flashing engine of [hooks/use-flasher.ts]

    A shallow embedding of the [useFlasher] hook: the engine state
    ([FlasherState]), the two refs it keeps ([portRef], [readerRef]), the
    host's serial port as far as the hook observes it, and the operations
    [addLog], [connect], [disconnect], [write], [flashFirmware] and
    [clearLogs]; then [flashFirmware] cut at its [await]s, for calls that
    overlap; followed by the properties of the engine. *)

From Stdlib Require Import ZArith List String Ascii Bool Lia.
From Stdlib Require Import DecimalString HexadecimalString.
From Stdlib Require Import Floats.SpecFloat.
From Stdlib Require Strings.Byte.
Import ListNotations.

Local Open Scope Z_scope.

(* ================================================================== *)
(** ** JavaScript numbers, as far as the hook uses them *)

Module Js.

(** [ToInt32]: the operand conversion of [>>] and [&]. *)
Definition ToInt32 (x : Z) : Z := (x + 2 ^ 31) mod 2 ^ 32 - 2 ^ 31.

(** [x >> k]: sign-propagating shift of the 32-bit operand; the shift
    count is taken modulo 32. *)
Definition shr (x k : Z) : Z := Z.shiftr (ToInt32 x) (k mod 32).

(** [x & y] on 32-bit operands. *)
Definition and (x y : Z) : Z := ToInt32 (Z.land (ToInt32 x) (ToInt32 y)).

(** [ToUint8]: how [new Uint8Array([...])] stores a number. *)
Definition ToUint8 (x : Z) : Byte.byte :=
  match Byte.of_N (Z.to_N (x mod 256)) with
  | Some b => b
  | None => Byte.x00
  end.

Definition byte_val (b : Byte.byte) : Z := Z.of_N (Byte.to_N b).

(** [new Uint8Array([x0, x1, ...])]. *)
Definition Uint8Array (xs : list Z) : list Byte.byte := map ToUint8 xs.

(** [a.slice(start, end)] for arrays and typed arrays: negative indices
    count from the end, both are clamped to the length, and an omitted
    [end] is the length. *)
Definition slice {A : Type} (a : list A) (start : Z) (end_ : option Z)
  : list A :=
  let len := Z.of_nat (List.length a) in
  let rel (k : Z) := if k <? 0 then Z.max (len + k) 0 else Z.min k len in
  let from := rel start in
  let to := match end_ with Some e => rel e | None => len end in
  firstn (Z.to_nat (Z.max (to - from) 0)) (skipn (Z.to_nat from) a).

(** [n.toString(16)] of an integer. *)
Definition toString16 (n : Z) : string :=
  HexadecimalString.NilZero.string_of_int (Z.to_hex_int n).

(** Numbers that are not kept integral ([percentage]) are IEEE 754
    binary64 values. *)
Definition number : Type := spec_float.
Definition prec : Z := 53.
Definition emax : Z := 1024.

Definition of_Z (n : Z) : number := binary_normalize prec emax n 0 false.
Definition div (x y : number) : number := SFdiv prec emax x y.
Definition mul (x y : number) : number := SFmul prec emax x y.

(** [Math.round]: the integer nearest to [x], ties towards +infinity;
    NaN and the infinities are returned as they are, and a result of
    zero keeps the sign of [x]. *)
Definition Math_round (x : number) : number :=
  match x with
  | S754_finite s m e =>
      if 0 <=? e then x
      else
        let v := if s then Z.neg m else Z.pos m in
        let n := (2 * v + 2 ^ (- e)) / 2 ^ (1 - e) in
        if n =? 0 then S754_zero s else of_Z n
  | _ => x
  end.

(** The integer a finite integral number stands for. *)
Definition to_Z (x : number) : option Z :=
  match x with
  | S754_zero _ => Some 0
  | S754_finite s m e => Some ((if s then -1 else 1) * Z.shiftl (Z.pos m) e)
  | _ => None
  end.

(** All the decimal digits of an integer. *)
Definition decimal (n : Z) : string :=
  DecimalString.NilZero.string_of_int (Z.to_int n).

(** Whether the decimal value [d] is read back as the number [v]. *)
Definition reads_as (d v : Z) : bool :=
  match to_Z (of_Z d) with Some v' => v' =? v | None => false end.

(** The shortest decimal that reads back as the number [v > 0] of
    [digits] digits: the first [k] for which a value of [k] significant
    digits does, and of two such values the one nearer to [v], the even
    one on a tie. *)
Fixpoint shortest (fuel : nat) (k digits v : Z) : Z :=
  match fuel with
  | O => v
  | S fuel' =>
      let p := 10 ^ (digits - k) in
      let lo := v / p * p in
      let hi := lo + p in
      match reads_as lo v, reads_as hi v with
      | true, false => lo
      | false, true => hi
      | true, true =>
          if v - lo <? hi - v then lo
          else if hi - v <? v - lo then hi
          else if Z.even (v / p) then lo else hi
      | false, false => shortest fuel' (k + 1) digits v
      end
  end.

Fixpoint strip_zeros (fuel : nat) (d : Z) : Z :=
  match fuel with
  | O => d
  | S fuel' =>
      if (d mod 10 =? 0) && negb (d =? 0)
      then strip_zeros fuel' (d / 10)
      else d
  end.

(** [d] as [s.sss...e+n], for [d >= 1e21]. *)
Definition exponent_form (d : Z) : string :=
  let n := Z.of_nat (String.length (decimal d)) in
  match decimal (strip_zeros (Z.to_nat n) d) with
  | String c EmptyString => String c "e+" ++ decimal (n - 1)
  | String c rest => String c ("." ++ rest) ++ "e+" ++ decimal (n - 1)
  | EmptyString => EmptyString
  end.

(** [String(n)] of an integer, as a template literal renders it. A safe
    integer prints all its digits. Beyond 2^53 the number is the binary64
    value nearest to [n] and prints with the fewest digits that read back
    as it, padded with zeros below 1e21 and in exponent form from 1e21
    on; beyond the largest number it is [Infinity]. *)
Definition toString (n : Z) : string :=
  if Z.abs n <? 2 ^ 53 then decimal n
  else
    match to_Z (of_Z n) with
    | None => if n <? 0 then "-Infinity" else "Infinity"
    | Some v =>
        let a := Z.abs v in
        let digits := Z.of_nat (String.length (decimal a)) in
        let d := shortest 17 1 digits a in
        let text := if 10 ^ 21 <=? d then exponent_form d else decimal d in
        if v <? 0 then "-" ++ text else text
    end.

End Js.

(* ================================================================== *)
(** ** Data model *)

Record FlashProgress : Type := {
  current : Z;
  total : Z;
  percentage : Js.number
}.

Module LogType.
Inductive t : Type := info | success | error | warning.

Definition eqb (a b : t) : bool :=
  match a, b with
  | info, info | success, success | error, error | warning, warning => true
  | _, _ => false
  end.
End LogType.

Record LogEntry : Type := {
  message : string;
  type : LogType.t;
  timestamp : Z
}.

Record FlasherState : Type := {
  isConnected : bool;
  isFlashing : bool;
  progress : FlashProgress;
  logs : list LogEntry;
  error : option string
}.

Definition ROM_LOADER_SYNC_WORD : Z := 0x07.
Definition ROM_LOADER_FLASH_BEGIN_CMD : Z := 0x02.
Definition ROM_LOADER_FLASH_DATA_CMD : Z := 0x03.
Definition ROM_LOADER_FLASH_END_CMD : Z := 0x04.

(** The state [useState] starts from. *)
Definition initialState : FlasherState := {|
  isConnected := false;
  isFlashing := false;
  progress := {| current := 0; total := 0; percentage := Js.of_Z 0 |};
  logs := [];
  error := None
|}.

(* ================================================================== *)
(** ** The host: serial port, transport and clock *)

(** A value a rejected promise or a [throw] carries: an [Error] with its
    message, or anything else. *)
Inductive JsValue : Type :=
| JsError (msg : string)
| JsOther.

(** The hook only looks at whether the two streams of a port exist:
    [port.readable] and [port.writable] are [null] on a closed port. *)
Record SerialPort : Type := {
  readable : bool;
  writable : bool
}.

Definition closedPort : SerialPort := {| readable := false; writable := false |}.
Definition openPort : SerialPort := {| readable := true; writable := true |}.

(** What [navigator.serial.requestPort()] answers: the port the user
    picked, in the state it is in (a port picked again may be open
    already), or a rejection. *)
Inductive PortRequest : Type :=
| PortGranted (port : SerialPort)
| PortRefused (e : JsValue).

(** What the host answers. [None] is a promise that resolves, [Some e] one
    that rejects with [e]; [writer_write n] is the answer to the [n]-th
    call of [writer.write] (counted from 0 over the life of the hook). *)
Record Host : Type := {
  navigator_serial : bool;
  requestPort : PortRequest;
  port_open : Z -> option JsValue;
  reader_cancel : option JsValue;
  port_close : option JsValue;
  writer_write : nat -> option JsValue
}.

(** Everything a call of the hook can read or change. *)
Record World : Type := {
  state : FlasherState;
  portRef : option SerialPort;
  readerRef : bool;              (* [readerRef.current] is not [null] *)
  clock : Z;                     (* host time, in ms, as [new Date()] reads it *)
  sent : list (list Byte.byte);  (* frames the transport accepted, oldest first *)
  attempts : nat                 (* calls of [writer.write] so far *)
}.

Definition initialWorld : World := {|
  state := initialState;
  portRef := None;
  readerRef := false;
  clock := 0;
  sent := [];
  attempts := 0
|}.

(* ================================================================== *)
(** ** Async functions as state transformers with exceptions *)

Inductive Outcome (A : Type) : Type :=
| Return (a : A)
| Throw (e : JsValue)
| OutOfFuel.

Arguments Return {A} a.
Arguments Throw {A} e.
Arguments OutOfFuel {A}.

Definition M (A : Type) : Type := World -> World * Outcome A.

Definition ret {A : Type} (a : A) : M A := fun w => (w, Return a).

Definition bind {A B : Type} (m : M A) (k : A -> M B) : M B :=
  fun w =>
    match m w with
    | (w', Return a) => k a w'
    | (w', Throw e) => (w', Throw e)
    | (w', OutOfFuel) => (w', OutOfFuel)
    end.

Definition throw {A : Type} (e : JsValue) : M A := fun w => (w, Throw e).

Definition out_of_fuel {A : Type} : M A := fun w => (w, OutOfFuel).

(** [try { body } catch (error) { handler }]. *)
Definition try_catch {A : Type} (body : M A) (handler : JsValue -> M A) : M A :=
  fun w =>
    match body w with
    | (w', Throw e) => handler e w'
    | r => r
    end.

Declare Scope js_scope.
Delimit Scope js_scope with js.
Notation "x <- m ;; k" := (bind m (fun x => k))
  (at level 61, m at next level, right associativity) : js_scope.
Notation "m ;; k" := (bind m (fun _ => k))
  (at level 61, right associativity) : js_scope.

(** [setState(prev => f prev)]. *)
Definition setState (f : FlasherState -> FlasherState) : M unit :=
  fun w =>
    ({| state := f (state w); portRef := portRef w; readerRef := readerRef w;
        clock := clock w; sent := sent w; attempts := attempts w |},
     Return tt).

Definition set_portRef (p : option SerialPort) : M unit :=
  fun w =>
    ({| state := state w; portRef := p; readerRef := readerRef w;
        clock := clock w; sent := sent w; attempts := attempts w |},
     Return tt).

Definition set_readerRef (r : bool) : M unit :=
  fun w =>
    ({| state := state w; portRef := portRef w; readerRef := r;
        clock := clock w; sent := sent w; attempts := attempts w |},
     Return tt).

(** [await new Promise((resolve) => setTimeout(resolve, ms))]: the clock
    has advanced by the delay when the call resumes. *)
Definition sleep (ms : Z) : M unit :=
  fun w =>
    ({| state := state w; portRef := portRef w; readerRef := readerRef w;
        clock := clock w + ms; sent := sent w; attempts := attempts w |},
     Return tt).

(** [error instanceof Error ? error.message : fallback]. *)
Definition message_of (e : JsValue) (fallback : string) : string :=
  match e with
  | JsError msg => msg
  | JsOther => fallback
  end.

(* ================================================================== *)
(** ** The hook *)

Section UseFlasher.

Variable host : Host.

Local Open Scope js_scope.

(** [addLog(message, type = 'info')]; [None] is an omitted argument. *)
Definition addLog (message : string) (type : option LogType.t) : M unit :=
  fun w =>
    let type := match type with Some t => t | None => LogType.info end in
    setState (fun prev => {|
      isConnected := isConnected prev;
      isFlashing := isFlashing prev;
      progress := progress prev;
      logs := Js.slice
                (logs prev ++
                 [{| message := message; type := type; timestamp := clock w |}])
                (-100) None;
      error := error prev
    |}) w.

(** [connect(baudRate = 115200)]. *)
Definition connect (baudRate : option Z) : M unit :=
  let baudRate := match baudRate with Some b => b | None => 115200 end in
  try_catch
    ((if navigator_serial host then ret tt
      else throw (JsError "Web Serial API not supported in this browser")) ;;
     (match requestPort host with
      | PortGranted port => set_portRef (Some port)
      | PortRefused e => throw e
      end) ;;
     (match port_open host baudRate with
      | None => set_portRef (Some openPort)
      | Some e => throw e
      end) ;;
     setState (fun prev => {|
       isConnected := true;
       isFlashing := isFlashing prev;
       progress := progress prev;
       logs := logs prev;
       error := None
     |}) ;;
     addLog ("Connected to device at " ++ Js.toString baudRate ++ " baud")
            (Some LogType.success))
    (fun error_ =>
       let message := message_of error_ "Failed to connect" in
       setState (fun prev => {|
         isConnected := isConnected prev;
         isFlashing := isFlashing prev;
         progress := progress prev;
         logs := logs prev;
         error := Some message
       |}) ;;
       addLog ("Connection failed: " ++ message) (Some LogType.error) ;;
       throw error_).

(** [disconnect()]. A rejected [cancel] leaves the call; a rejected
    [close] is swallowed. *)
Definition disconnect : M unit :=
  (fun w =>
     if readerRef w then
       match reader_cancel host with
       | None => set_readerRef false w
       | Some e => throw e w
       end
     else ret tt w) ;;
  (fun w =>
     match portRef w with
     | Some p =>
         if readable p then
           match port_close host with
           | None => set_portRef (Some closedPort) w
           | Some _ => ret tt w     (* Already closed *)
           end
         else ret tt w
     | None => ret tt w
     end) ;;
  setState (fun prev => {|
    isConnected := false;
    isFlashing := isFlashing prev;
    progress := progress prev;
    logs := logs prev;
    error := error prev
  |}) ;;
  addLog "Disconnected from device" (Some LogType.info).

(** [write(data)], awaited to its end: refuses a missing port or write
    side before the transport is touched; otherwise one [writer.write].
    The writer's lock is taken and released within the call, so it only
    shows between calls that overlap: see [write_called]. *)
Definition write (data : list Byte.byte) : M unit :=
  fun w =>
    let is_writable :=
      match portRef w with Some p => writable p | None => false end in
    if is_writable then
      match writer_write host (attempts w) with
      | None =>
          ({| state := state w; portRef := portRef w; readerRef := readerRef w;
              clock := clock w; sent := sent w ++ [data];
              attempts := S (attempts w) |},
           Return tt)
      | Some e =>
          ({| state := state w; portRef := portRef w; readerRef := readerRef w;
              clock := clock w; sent := sent w;
              attempts := S (attempts w) |},
           Throw e)
      end
    else throw (JsError "Port not writable") w.

Definition chunkSize : Z := 256.

(** The frame [flashBegin]. *)
Definition flashBegin (fileData_length offset : Z) : list Byte.byte :=
  Js.Uint8Array [
    ROM_LOADER_FLASH_BEGIN_CMD;
    0x00;
    0x00;
    0x00;
    0x00;
    0x00;
    0x00;
    0x00;
    Js.and (Js.shr fileData_length 0) 0xff;
    Js.and (Js.shr fileData_length 8) 0xff;
    Js.and (Js.shr fileData_length 16) 0xff;
    Js.and (Js.shr fileData_length 24) 0xff;
    Js.and (Js.shr offset 0) 0xff;
    Js.and (Js.shr offset 8) 0xff;
    Js.and (Js.shr offset 16) 0xff;
    Js.and (Js.shr offset 24) 0xff
  ].

(** The frame [chunkData] of one chunk. *)
Definition chunkData (chunk : list Byte.byte) : list Byte.byte :=
  let chunk_length := Z.of_nat (List.length chunk) in
  Js.Uint8Array ([
    ROM_LOADER_FLASH_DATA_CMD;
    Js.and chunk_length 0xff;
    Js.and (Js.shr chunk_length 8) 0xff;
    0x00
  ] ++ map Js.byte_val chunk).

(** The frame [flashEnd]. *)
Definition flashEnd : list Byte.byte :=
  Js.Uint8Array [ROM_LOADER_FLASH_END_CMD; 0x00].

(** The body of the chunk loop at index [i]. *)
Definition flash_chunk (fileData : list Byte.byte) (i : Z) : M unit :=
  let fileData_length := Z.of_nat (List.length fileData) in
  let chunk :=
    Js.slice fileData i (Some (Z.min (i + chunkSize) fileData_length)) in
  write (chunkData chunk) ;;
  sleep 50 ;;
  let progress_ := Z.min (i + chunkSize) fileData_length in
  setState (fun prev => {|
    isConnected := isConnected prev;
    isFlashing := isFlashing prev;
    progress := {|
      current := progress_;
      total := fileData_length;
      percentage :=
        Js.Math_round
          (Js.mul (Js.div (Js.of_Z progress_) (Js.of_Z fileData_length))
                  (Js.of_Z 100))
    |};
    logs := logs prev;
    error := error prev
  |}) ;;
  addLog ("Flashed " ++ Js.toString progress_ ++ "/"
          ++ Js.toString fileData_length ++ " bytes")
         (Some LogType.info).

(** [for (let i = ...; i < fileData.length; i += chunkSize) { ... }],
    with a bound on the number of iterations. *)
Fixpoint flash_loop (fuel : nat) (fileData : list Byte.byte) (i : Z)
  : M unit :=
  match fuel with
  | O => out_of_fuel
  | S fuel' =>
      if i <? Z.of_nat (List.length fileData) then
        flash_chunk fileData i ;;
        flash_loop fuel' fileData (i + chunkSize)
      else ret tt
  end.

(** [flashFirmware(fileData, offset = 0x10000)]. *)
Definition flashFirmware (fileData : list Byte.byte) (offset : option Z)
  : M unit :=
  let offset := match offset with Some o => o | None => 0x10000 end in
  let fileData_length := Z.of_nat (List.length fileData) in
  fun w =>
    match portRef w with
    | None => throw (JsError "Not connected to device") w
    | Some _ =>
      (setState (fun prev => {|
         isConnected := isConnected prev;
         isFlashing := true;
         progress := {| current := 0; total := fileData_length;
                        percentage := Js.of_Z 0 |};
         logs := logs prev;
         error := None
       |}) ;;
       try_catch
         (addLog "Starting firmware flash..." (Some LogType.info) ;;
          addLog ("File size: " ++ Js.toString fileData_length ++ " bytes")
                 (Some LogType.info) ;;
          addLog ("Flash offset: 0x" ++ Js.toString16 offset)
                 (Some LogType.info) ;;

          (* Flash begin command *)
          write (flashBegin fileData_length offset) ;;
          sleep 100 ;;

          (* Flash data in chunks *)
          flash_loop (S (List.length fileData)) fileData 0 ;;

          (* Flash end command *)
          write flashEnd ;;
          sleep 500 ;;

          setState (fun prev => {|
            isConnected := isConnected prev;
            isFlashing := false;
            progress := {| current := fileData_length;
                           total := fileData_length;
                           percentage := Js.of_Z 100 |};
            logs := logs prev;
            error := error prev
          |}) ;;

          addLog "Firmware flash completed successfully!"
                 (Some LogType.success))
         (fun error_ =>
            let message := message_of error_ "Flash failed" in
            setState (fun prev => {|
              isConnected := isConnected prev;
              isFlashing := false;
              progress := progress prev;
              logs := logs prev;
              error := Some message
            |}) ;;
            addLog ("Flash error: " ++ message) (Some LogType.error) ;;
            throw error_)) w
    end.

(** [clearLogs()]. *)
Definition clearLogs : M unit :=
  setState (fun prev => {|
    isConnected := isConnected prev;
    isFlashing := isFlashing prev;
    progress := progress prev;
    logs := [];
    error := error prev
  |}).

End UseFlasher.

(* ================================================================== *)
(** ** The wire format as a receiver reads it

    The hook only encodes. These definitions follow the frame layouts of
    the specification and are what the encoders above are compared with. *)

(** [n] bytes of [x], least significant first. *)
Fixpoint spec_le_bytes (n : nat) (x : Z) : list Byte.byte :=
  match n with
  | O => []
  | S n' => Js.ToUint8 (x mod 256) :: spec_le_bytes n' (x / 256)
  end.

(** The number a little-endian byte string stands for. *)
Fixpoint spec_le_value (bs : list Byte.byte) : Z :=
  match bs with
  | [] => 0
  | b :: bs' => Js.byte_val b + 256 * spec_le_value bs'
  end.

(** A BEGIN frame is 16 bytes: the command byte, seven zero bytes that are
    skipped, [imageLen] and [offset]. The result is [(imageLen, offset)]. *)
Definition spec_decodeFlashBegin (frame : list Byte.byte) : option (Z * Z) :=
  match frame with
  | [c; _; _; _; _; _; _; _; l0; l1; l2; l3; o0; o1; o2; o3] =>
      if Byte.eqb c Byte.x02
      then Some (spec_le_value [l0; l1; l2; l3], spec_le_value [o0; o1; o2; o3])
      else None
  | _ => None
  end.

(** A DATA frame: the command byte, the chunk length in two bytes, one
    reserved byte, and exactly that many chunk bytes. The result is the
    length field and the chunk. *)
Definition spec_decodeFlashData (frame : list Byte.byte)
  : option (Z * list Byte.byte) :=
  match frame with
  | c :: l0 :: l1 :: _ :: chunk =>
      let n := spec_le_value [l0; l1] in
      if Byte.eqb c Byte.x03 && (Z.of_nat (List.length chunk) =? n)
      then Some (n, chunk)
      else None
  | _ => None
  end.

(* ================================================================== *)
(** ** Views of a run used in the statements *)

(** The last 100 entries of a log. *)
Definition last100 {A : Type} (l : list A) : list A :=
  skipn (List.length l - 100) l.

(** The chunk the loop cuts at its [j]-th iteration (from 0). *)
Definition chunk_at (fileData : list Byte.byte) (j : nat) : list Byte.byte :=
  let i := chunkSize * Z.of_nat j in
  Js.slice fileData i
    (Some (Z.min (i + chunkSize) (Z.of_nat (List.length fileData)))).

(** The value the loop stores in [percentage]. *)
Definition percentage_of (current total : Z) : Js.number :=
  Js.Math_round (Js.mul (Js.div (Js.of_Z current) (Js.of_Z total)) (Js.of_Z 100)).

(** The progress record the iteration at index [i] stores. *)
Definition chunk_progress (fileData : list Byte.byte) (i : Z) : FlashProgress :=
  let len := Z.of_nat (List.length fileData) in
  {| current := Z.min (i + chunkSize) len;
     total := len;
     percentage := percentage_of (Z.min (i + chunkSize) len) len |}.

Definition is_error (e : LogEntry) : bool := LogType.eqb (type e) LogType.error.

(** A host whose transport accepts the writes [a, a+1, ..., a+n-1]. *)
Definition accepts (host : Host) (a n : nat) : Prop :=
  forall m, (m < n)%nat -> writer_write host (a + m) = None.

(** [w] holds a port whose write side exists. *)
Definition port_writable (w : World) : Prop :=
  exists p, portRef w = Some p /\ writable p = true.

(** [w] with the [isFlashing] flag of its state set to [b]. *)
Definition with_isFlashing (b : bool) (w : World) : World := {|
  state := {|
    isConnected := isConnected (state w);
    isFlashing := b;
    progress := progress (state w);
    logs := logs (state w);
    error := error (state w)
  |};
  portRef := portRef w;
  readerRef := readerRef w;
  clock := clock w;
  sent := sent w;
  attempts := attempts w
|}.

(** A sequence of [addLog] calls, first to last. *)
Fixpoint addLogs (appends : list (string * option LogType.t)) (w : World)
  : World :=
  match appends with
  | [] => w
  | (message, type) :: rest => addLogs rest (fst (addLog message type w))
  end.

(** A log after the entries [es] were appended one by one. *)
Fixpoint appendLogs (l : list LogEntry) (es : list LogEntry) : list LogEntry :=
  match es with
  | [] => l
  | e :: es' => appendLogs (last100 (l ++ [e])) es'
  end.

(** The three lines [flashFirmware] logs before it writes. *)
Definition startLogs (fileData_length offset now : Z) : list LogEntry := [
  {| message := "Starting firmware flash...";
     type := LogType.info; timestamp := now |};
  {| message := "File size: " ++ Js.toString fileData_length ++ " bytes";
     type := LogType.info; timestamp := now |};
  {| message := "Flash offset: 0x" ++ Js.toString16 offset;
     type := LogType.info; timestamp := now |}
].

(** The line the [catch] block of [flashFirmware] logs. *)
Definition errorLog (e : JsValue) (now : Z) : LogEntry :=
  {| message := "Flash error: " ++ message_of e "Flash failed";
     type := LogType.error; timestamp := now |}.

(** A call that answers with a value or an exception from every world:
    it never uses up the iteration bound of the chunk loop. *)
Definition terminates {A : Type} (m : M A) : Prop :=
  forall w, snd (m w) <> OutOfFuel.

(** Hosts and worlds used as concrete inputs. *)
Definition reliableHost : Host := {|
  navigator_serial := true;
  requestPort := PortGranted closedPort;
  port_open := fun _ => None;
  reader_cancel := None;
  port_close := None;
  writer_write := fun _ => None
|}.

(** A host whose [k]-th [writer.write] rejects with an [Error]. *)
Definition failingHost (k : nat) (msg : string) : Host := {|
  navigator_serial := true;
  requestPort := PortGranted closedPort;
  port_open := fun _ => None;
  reader_cancel := None;
  port_close := None;
  writer_write := fun n => if Nat.eqb n k then Some (JsError msg) else None
|}.

Definition connectedWorld : World :=
  fst (connect reliableHost None initialWorld).

Definition disconnectedWorld : World :=
  fst (disconnect reliableHost connectedWorld).

(* ================================================================== *)
(** ** The rest of the hook, and its callers in the component *)

(** What [reader.read()] answers: it resolves with [{ value }], where
    [value] is [undefined] once the stream is done, or it rejects. *)
Inductive ReadAnswer : Type :=
| ReadResolves (value : option (list Byte.byte))
| ReadRejects (e : JsValue).

(** [read(timeout = 1000)]. The timer aborts an [AbortController] whose
    signal is handed to nobody, so it does not reach the pending
    [reader.read()]: the outcome is the reader's answer alone. *)
Definition read (answer : ReadAnswer) (timeout : option Z)
  : M (list Byte.byte) :=
  fun w =>
    let is_readable :=
      match portRef w with Some p => readable p | None => false end in
    if is_readable then
      bind (if readerRef w then ret tt else set_readerRef true)
        (fun _ =>
           try_catch
             (match answer with
              | ReadResolves value =>
                  ret (match value with Some v => v | None => [] end)
              | ReadRejects e => throw e
              end)
             (fun _ => throw (JsError "Read timeout or error"))) w
    else throw (JsError "Port not readable") w.

(** [handleConnect] of the component: [connect(baudRate)] with the
    failure caught and only printed to the console. *)
Definition handleConnect (host : Host) (baudRate : Z) : M unit :=
  try_catch (connect host (Some baudRate)) (fun _ => ret tt).

(** The [disabled] attribute of the component's flash button;
    [selectedFile] says whether a file is selected. *)
Definition flashButtonDisabled (w : World) (selectedFile : bool) : bool :=
  negb (isConnected (state w)) || negb selectedFile || isFlashing (state w).

(** The baud rate [connect] uses: its argument, or the default. *)
Definition baudRate_or_default (baudRate : option Z) : Z :=
  match baudRate with Some b => b | None => 115200 end.

(** The first step of [connect] that fails, with what it throws: the
    missing Web Serial API, the port request, or the opening of the port. *)
Definition connect_rejection (host : Host) (baudRate : Z) : option JsValue :=
  if navigator_serial host then
    match requestPort host with
    | PortRefused e => Some e
    | PortGranted _ => port_open host baudRate
    end
  else Some (JsError "Web Serial API not supported in this browser").

(** The operations the hook returns, each with the answers of the host
    during that call. *)
Inductive Call : Type :=
| Connect (host : Host) (baudRate : option Z)
| Disconnect (host : Host)
| FlashFirmware (host : Host) (fileData : list Byte.byte) (offset : option Z)
| AddLog (message : string) (type : option LogType.t)
| ClearLogs.

Definition call (c : Call) : M unit :=
  match c with
  | Connect host baudRate => connect host baudRate
  | Disconnect host => disconnect host
  | FlashFirmware host fileData offset => flashFirmware host fileData offset
  | AddLog message type => addLog message type
  | ClearLogs => clearLogs
  end.

(** Calls made one after the other, each awaited before the next. *)
Fixpoint run_calls (cs : list Call) (w : World) : World :=
  match cs with
  | [] => w
  | c :: cs' => run_calls cs' (fst (call c w))
  end.

(** The number of iterations of the chunk loop. *)
Definition chunkCount (fileData : list Byte.byte) : nat :=
  Z.to_nat ((Z.of_nat (List.length fileData) + (chunkSize - 1)) / chunkSize).

(** Every frame of a complete job, in the order of the writes. *)
Definition frames (fileData : list Byte.byte) (offset : Z)
  : list (list Byte.byte) :=
  flashBegin (Z.of_nat (List.length fileData)) offset
  :: map (fun j => chunkData (chunk_at fileData j)) (seq 0 (chunkCount fileData))
  ++ [flashEnd].

(** [m] keeps [I]: from a world where [I] holds it ends, returning or
    throwing, in a world where [I] holds. *)
Definition preserves {A : Type} (I : World -> Prop) (m : M A) : Prop :=
  forall w, I w -> I (fst (m w)).

(** What [flashFirmware] leaves as it was. *)
Definition kept (w0 w : World) : Prop :=
  isConnected (state w) = isConnected (state w0)
  /\ portRef w = portRef w0
  /\ readerRef w = readerRef w0.

(** The bounds of the log and of the progress record. *)
Definition bounded (w : World) : Prop :=
  (List.length (logs (state w)) <= 100)%nat
  /\ 0 <= current (progress (state w)) <= total (progress (state w)).

(** What holds of the engine between calls. *)
Definition engine_invariant (w : World) : Prop :=
  (List.length (logs (state w)) <= 100)%nat
  /\ isFlashing (state w) = false
  /\ 0 <= current (progress (state w)) <= total (progress (state w))
  /\ (isConnected (state w) = true -> portRef w <> None)
  /\ readerRef w = false.

(* ================================================================== *)
(** ** Calls of [flashFirmware] that overlap

    An [async] function runs without interruption from one [await] to
    the next, and an [await] of a promise that is settled already goes
    on before the host delivers anything else. So [flashFirmware] waits
    at two kinds of [await] only: for [write], until [writer.write]
    settles, and for a timer. While a call waits there, other calls can
    start or go on. The definitions below cut the body of
    [flashFirmware] at these points. The calls share the [World] and the
    lock of the port's writable stream, which [getWriter()] takes and
    [releaseLock()] gives back. A caller starts one call at a time: what
    a call runs before it first waits is one step. *)

(** The three places where a call waits: after it handed out the BEGIN
    frame, the DATA frame of the iteration at index [i], or the END
    frame. *)
Inductive Point : Type :=
| AtBegin
| AtChunk (i : Z)
| AtEnd.

Inductive JobState : Type :=
| Writing (p : Point)              (* in [await writer.write(data)] *)
| Pausing (p : Point) (until : Z)  (* in [await new Promise(... setTimeout ...)] *)
| Returned
| Thrown (e : JsValue).

(** A [writer.write] that has not settled: the call that made it, the
    frame, and its number among the calls of [writer.write]. *)
Record PendingWrite : Type := {
  pw_owner : nat;
  pw_frame : list Byte.byte;
  pw_index : nat
}.

(** What overlapping calls share. [writer] is [Some] from [getWriter()]
    to [releaseLock()]: the stream is locked. *)
Record Shared : Type := {
  world : World;
  writer : option PendingWrite
}.

(** One call of [flashFirmware]: its image and how far it has come. *)
Record Job : Type := {
  job_fileData : list Byte.byte;
  job_state : JobState
}.

(** The engine with the calls of [flashFirmware] made on it so far, in
    the order they were made; a call is named by its place in [jobs]. *)
Record Engine : Type := {
  shared : Shared;
  jobs : list Job
}.

(** What happens between two uninterrupted runs of code: a caller calls
    [flashFirmware], the pending [writer.write] settles, the timer of a
    call fires, or time passes. *)
Inductive Event : Type :=
| Calls (fileData : list Byte.byte) (offset : option Z)
| WriteSettles
| TimerFires (id : nat)
| Elapses (ms : Z).

(** Code that does not wait, run on the shared world. *)
Definition in_world (m : M unit) (s : Shared) : Shared :=
  {| world := fst (m (world s)); writer := writer s |}.

(** The first [setState] of [flashFirmware] and the three log lines. *)
Definition flash_opening (fileData_length offset : Z) : M unit :=
  (setState (fun prev => {|
     isConnected := isConnected prev;
     isFlashing := true;
     progress := {| current := 0; total := fileData_length;
                    percentage := Js.of_Z 0 |};
     logs := logs prev;
     error := None
   |}) ;;
   addLog "Starting firmware flash..." (Some LogType.info) ;;
   addLog ("File size: " ++ Js.toString fileData_length ++ " bytes")
          (Some LogType.info) ;;
   addLog ("Flash offset: 0x" ++ Js.toString16 offset)
          (Some LogType.info))%js.

(** The end of an iteration of the chunk loop, after its pause. *)
Definition chunk_done (fileData : list Byte.byte) (i : Z) : M unit :=
  let fileData_length := Z.of_nat (List.length fileData) in
  let progress_ := Z.min (i + chunkSize) fileData_length in
  (setState (fun prev => {|
     isConnected := isConnected prev;
     isFlashing := isFlashing prev;
     progress := {|
       current := progress_;
       total := fileData_length;
       percentage :=
         Js.Math_round
           (Js.mul (Js.div (Js.of_Z progress_) (Js.of_Z fileData_length))
                   (Js.of_Z 100))
     |};
     logs := logs prev;
     error := error prev
   |}) ;;
   addLog ("Flashed " ++ Js.toString progress_ ++ "/"
           ++ Js.toString fileData_length ++ " bytes")
          (Some LogType.info))%js.

(** The end of [flashFirmware], after the pause that follows the END
    frame. *)
Definition flash_done (fileData : list Byte.byte) : M unit :=
  let fileData_length := Z.of_nat (List.length fileData) in
  (setState (fun prev => {|
     isConnected := isConnected prev;
     isFlashing := false;
     progress := {| current := fileData_length;
                    total := fileData_length;
                    percentage := Js.of_Z 100 |};
     logs := logs prev;
     error := error prev
   |}) ;;
   addLog "Firmware flash completed successfully!"
          (Some LogType.success))%js.

(** The [catch] block of [flashFirmware], up to its [throw]. *)
Definition flash_catch (error_ : JsValue) : M unit :=
  let message := message_of error_ "Flash failed" in
  (setState (fun prev => {|
     isConnected := isConnected prev;
     isFlashing := false;
     progress := progress prev;
     logs := logs prev;
     error := Some message
   |}) ;;
   addLog ("Flash error: " ++ message) (Some LogType.error))%js.

(** The pauses after the BEGIN frame, a DATA frame and the END frame. *)
Definition delay (p : Point) : Z :=
  match p with
  | AtBegin => 100
  | AtChunk _ => 50
  | AtEnd => 500
  end.

(** A timer set for [until] has fired: it is that late, or later. *)
Definition wake (until : Z) : M unit :=
  fun w =>
    ({| state := state w; portRef := portRef w; readerRef := readerRef w;
        clock := Z.max (clock w) until; sent := sent w;
        attempts := attempts w |},
     Return tt).

Section Overlapping.

Variable host : Host.

(** The message of the [TypeError] that [getWriter()] throws on a stream
    that is locked. *)
Variable lockedMessage : string.

(** An exception inside the [try] of [flashFirmware]: the [catch] block
    runs and the call ends. *)
Definition thrown (error_ : JsValue) (s : Shared) : Shared * JobState :=
  (in_world (flash_catch error_) s, Thrown error_).

(** [await write(data)] up to its [await writer.write(data)]: the test of
    the port, [getWriter()], and the frame handed to the writer. *)
Definition write_called (id : nat) (p : Point) (data : list Byte.byte)
    (s : Shared) : Shared * JobState :=
  let w := world s in
  let is_writable :=
    match portRef w with Some port => writable port | None => false end in
  if is_writable then
    match writer s with
    | Some _ => thrown (JsError lockedMessage) s
    | None =>
        ({| world :=
              {| state := state w; portRef := portRef w;
                 readerRef := readerRef w; clock := clock w; sent := sent w;
                 attempts := S (attempts w) |};
            writer := Some {| pw_owner := id; pw_frame := data;
                              pw_index := attempts w |} |},
         Writing p)
    end
  else thrown (JsError "Port not writable") s.

(** The test of the chunk loop at index [i], and what follows it up to
    the next [await]: the DATA frame of the chunk, or the END frame. *)
Definition loop_test (id : nat) (fileData : list Byte.byte) (i : Z)
    (s : Shared) : Shared * JobState :=
  let fileData_length := Z.of_nat (List.length fileData) in
  if i <? fileData_length then
    let chunk :=
      Js.slice fileData i (Some (Z.min (i + chunkSize) fileData_length)) in
    write_called id (AtChunk i) (chunkData chunk) s
  else write_called id AtEnd flashEnd s.

(** A call of [flashFirmware], up to its first [await] that waits. *)
Definition flash_called (id : nat) (fileData : list Byte.byte)
    (offset : option Z) (s : Shared) : Shared * JobState :=
  let offset := match offset with Some o => o | None => 0x10000 end in
  let fileData_length := Z.of_nat (List.length fileData) in
  match portRef (world s) with
  | None => (s, Thrown (JsError "Not connected to device"))
  | Some _ =>
      write_called id AtBegin (flashBegin fileData_length offset)
        (in_world (flash_opening fileData_length offset) s)
  end.

(** The pending write [pw], made by a call that waits at [p], settles:
    [releaseLock()], then the pause, or the [catch] block. *)
Definition write_settled (p : Point) (pw : PendingWrite) (s : Shared)
  : Shared * JobState :=
  let w := world s in
  match writer_write host (pw_index pw) with
  | None =>
      ({| world :=
            {| state := state w; portRef := portRef w;
               readerRef := readerRef w; clock := clock w;
               sent := sent w ++ [pw_frame pw]; attempts := attempts w |};
          writer := None |},
       Pausing p (clock w + delay p))
  | Some e => thrown e {| world := w; writer := None |}
  end.

(** A call that paused at [p] goes on, up to its next [await]. *)
Definition resumed (id : nat) (fileData : list Byte.byte) (p : Point)
    (s : Shared) : Shared * JobState :=
  match p with
  | AtBegin => loop_test id fileData 0 s
  | AtChunk i =>
      loop_test id fileData (i + chunkSize)
        (in_world (chunk_done fileData i) s)
  | AtEnd => (in_world (flash_done fileData) s, Returned)
  end.

(** The timer of a call that pauses at [p] fires. *)
Definition timer_fired (id : nat) (fileData : list Byte.byte) (p : Point)
    (until : Z) (s : Shared) : Shared * JobState :=
  resumed id fileData p (in_world (wake until) s).

(** Timers fire in the order of their deadlines; timers set for the same
    time are not ordered here. *)
Definition earliest (until : Z) (l : list Job) : bool :=
  forallb (fun j => match job_state j with
                    | Pausing _ u => until <=? u
                    | _ => true
                    end) l.

Fixpoint set_job (id : nat) (js : JobState) (l : list Job) : list Job :=
  match l, id with
  | [], _ => []
  | j :: l', O =>
      {| job_fileData := job_fileData j; job_state := js |} :: l'
  | j :: l', S id' => j :: set_job id' js l'
  end.

(** One event on the engine. An event that cannot happen in the state
    (no write is pending, the call does not pause, a timer with an
    earlier deadline has not fired) leaves the engine as it is. *)
Definition deliver (ev : Event) (E : Engine) : Engine :=
  match ev with
  | Calls fileData offset =>
      let r := flash_called (List.length (jobs E)) fileData offset (shared E) in
      {| shared := fst r;
         jobs := jobs E ++ [{| job_fileData := fileData;
                               job_state := snd r |}] |}
  | WriteSettles =>
      match writer (shared E) with
      | Some pw =>
          match option_map job_state (nth_error (jobs E) (pw_owner pw)) with
          | Some (Writing p) =>
              let r := write_settled p pw (shared E) in
              {| shared := fst r;
                 jobs := set_job (pw_owner pw) (snd r) (jobs E) |}
          | _ => E
          end
      | None => E
      end
  | TimerFires id =>
      match nth_error (jobs E) id with
      | Some j =>
          match job_state j with
          | Pausing p until =>
              if earliest until (jobs E) then
                let r := timer_fired id (job_fileData j) p until (shared E) in
                {| shared := fst r; jobs := set_job id (snd r) (jobs E) |}
              else E
          | _ => E
          end
      | None => E
      end
  | Elapses ms =>
      if 0 <=? ms
      then {| shared := in_world (sleep ms) (shared E); jobs := jobs E |}
      else E
  end.

(** Events one after the other. *)
Fixpoint run_events (evs : list Event) (E : Engine) : Engine :=
  match evs with
  | [] => E
  | ev :: evs' => run_events evs' (deliver ev E)
  end.

End Overlapping.

(** The engine in world [w] with no call of [flashFirmware] under way. *)
Definition idle (w : World) : Engine :=
  {| shared := {| world := w; writer := None |}; jobs := [] |}.

(** How a call that was awaited to its end shows as a job. *)
Definition ended (r : World * Outcome unit) : option (Shared * JobState) :=
  match r with
  | (w, Return _) => Some ({| world := w; writer := None |}, Returned)
  | (w, Throw e) => Some ({| world := w; writer := None |}, Thrown e)
  | (_, OutOfFuel) => None
  end.

(** The engine on which one call of [flashFirmware] was made, with what
    the call has left shared and how far it has come. *)
Definition alone (fileData : list Byte.byte) (r : Shared * JobState) : Engine :=
  {| shared := fst r;
     jobs := [{| job_fileData := fileData; job_state := snd r |}] |}.

(** The [catch] block of [flashFirmware] with its [throw]. *)
Definition flash_rethrow (error_ : JsValue) : M unit :=
  (flash_catch error_ ;; throw error_)%js.

(** The [try] block of [flashFirmware] from the test of the chunk loop
    at index [i] on. *)
Definition flash_tail (host : Host) (fuel : nat) (fileData : list Byte.byte)
    (i : Z) : M unit :=
  (flash_loop host fuel fileData i ;;
   write host flashEnd ;;
   sleep 500 ;;
   flash_done fileData)%js.

(* ================================================================== *)
(** * Properties *)

(** ** Bytes and 32-bit arithmetic *)

Lemma byte_val_range (b : Byte.byte) : 0 <= Js.byte_val b < 256.
Proof.
  unfold Js.byte_val. pose proof (Byte.to_N_bounded b). lia.
Qed.

Lemma byte_val_ToUint8 (x : Z) : Js.byte_val (Js.ToUint8 x) = x mod 256.
Proof.
  unfold Js.byte_val, Js.ToUint8.
  assert (Hr : 0 <= x mod 256 < 256) by (apply Z.mod_pos_bound; lia).
  destruct (Byte.of_N (Z.to_N (x mod 256))) as [b|] eqn:E.
  - apply Byte.to_of_N in E. rewrite E. lia.
  - apply Byte.of_N_None_iff in E. lia.
Qed.

Lemma ToUint8_byte_val (b : Byte.byte) : Js.ToUint8 (Js.byte_val b) = b.
Proof.
  unfold Js.ToUint8, Js.byte_val.
  pose proof (Byte.to_N_bounded b) as Hb.
  rewrite Z.mod_small by lia. rewrite N2Z.id.
  now rewrite Byte.of_to_N.
Qed.

Lemma Uint8Array_byte_val (bs : list Byte.byte) :
  Js.Uint8Array (map Js.byte_val bs) = bs.
Proof.
  unfold Js.Uint8Array. rewrite map_map.
  induction bs as [|b bs IH]; simpl; [reflexivity|].
  now rewrite ToUint8_byte_val, IH.
Qed.

Lemma ToInt32_small (x : Z) : - 2 ^ 31 <= x < 2 ^ 31 -> Js.ToInt32 x = x.
Proof.
  intros H. unfold Js.ToInt32. rewrite Z.mod_small; lia.
Qed.

Lemma ToInt32_congr (x : Z) : exists q, Js.ToInt32 x = x + 2 ^ 32 * q.
Proof.
  unfold Js.ToInt32. exists (- ((x + 2 ^ 31) / 2 ^ 32)).
  pose proof (Z.div_mod (x + 2 ^ 31) (2 ^ 32)). lia.
Qed.

(** [(x >> k) & 0xff] is byte [k/8] of [x], whatever the sign bit. *)
Lemma and_shr_byte (x : Z) (k : Z) :
  0 <= k <= 24 ->
  Js.and (Js.shr x k) 0xff = (x / 2 ^ k) mod 256.
Proof.
  intros Hk. unfold Js.and, Js.shr.
  rewrite (Z.mod_small k 32) by lia.
  rewrite (ToInt32_small 255) by lia.
  change 255 with (Z.ones 8). rewrite Z.land_ones by lia.
  change (2 ^ 8) with 256.
  assert (Hb : forall a, Js.ToInt32 a mod 256 = a mod 256).
  { intros a. destruct (ToInt32_congr a) as [q ->].
    replace (a + 2 ^ 32 * q) with (a + (2 ^ 24 * q) * 256) by lia.
    apply Z_mod_plus_full. }
  rewrite Hb.
  rewrite ToInt32_small
    by (pose proof (Z.mod_pos_bound (Z.shiftr (Js.ToInt32 x) k) 256); lia).
  rewrite Z.shiftr_div_pow2 by lia.
  destruct (ToInt32_congr x) as [q ->].
  replace (2 ^ 32) with (2 ^ (32 - k) * 2 ^ k)
    by (rewrite <- Z.pow_add_r by lia; f_equal; lia).
  replace (x + 2 ^ (32 - k) * 2 ^ k * q) with (x + (2 ^ (32 - k) * q) * 2 ^ k) by lia.
  rewrite Z.div_add by (apply Z.pow_nonzero; lia).
  replace (2 ^ (32 - k)) with (2 ^ (24 - k) * 256)
    by (change 256 with (2 ^ 8); rewrite <- Z.pow_add_r by lia; f_equal; lia).
  replace (x / 2 ^ k + 2 ^ (24 - k) * 256 * q)
    with (x / 2 ^ k + (2 ^ (24 - k) * q) * 256) by lia.
  apply Z_mod_plus_full.
Qed.

Lemma and_byte (x : Z) : Js.and x 0xff = x mod 256.
Proof.
  unfold Js.and. rewrite (ToInt32_small 255) by lia.
  change 255 with (Z.ones 8). rewrite Z.land_ones by lia.
  change (2 ^ 8) with 256.
  destruct (ToInt32_congr x) as [q ->].
  replace (x + 2 ^ 32 * q) with (x + (2 ^ 24 * q) * 256) by lia.
  rewrite Z_mod_plus_full.
  apply ToInt32_small. pose proof (Z.mod_pos_bound x 256). lia.
Qed.

(** ** The frames *)

Lemma flashBegin_bytes (imageLen offset : Z) :
  flashBegin imageLen offset =
  [Byte.x02; Byte.x00; Byte.x00; Byte.x00; Byte.x00; Byte.x00; Byte.x00; Byte.x00;
   Js.ToUint8 (imageLen mod 256);
   Js.ToUint8 ((imageLen / 256) mod 256);
   Js.ToUint8 ((imageLen / 256 / 256) mod 256);
   Js.ToUint8 ((imageLen / 256 / 256 / 256) mod 256);
   Js.ToUint8 (offset mod 256);
   Js.ToUint8 ((offset / 256) mod 256);
   Js.ToUint8 ((offset / 256 / 256) mod 256);
   Js.ToUint8 ((offset / 256 / 256 / 256) mod 256)].
Proof.
  unfold flashBegin, Js.Uint8Array. cbn [map].
  rewrite !and_shr_byte by lia.
  rewrite !Z.div_div by lia.
  change (2 ^ 0) with 1. rewrite !Z.div_1_r.
  reflexivity.
Qed.

Lemma chunkData_bytes (chunk : list Byte.byte) :
  chunkData chunk =
  Byte.x03
    :: Js.ToUint8 (Z.of_nat (List.length chunk) mod 256)
    :: Js.ToUint8 ((Z.of_nat (List.length chunk) / 256) mod 256)
    :: Byte.x00 :: chunk.
Proof.
  unfold chunkData, Js.Uint8Array. rewrite map_app. cbn [map app].
  fold (Js.Uint8Array (map Js.byte_val chunk)). rewrite Uint8Array_byte_val.
  rewrite and_byte, and_shr_byte by lia.
  reflexivity.
Qed.

Lemma spec_le_value_bytes4 (x : Z) :
  0 <= x < 2 ^ 32 ->
  spec_le_value
    [Js.ToUint8 (x mod 256); Js.ToUint8 ((x / 256) mod 256);
     Js.ToUint8 ((x / 256 / 256) mod 256);
     Js.ToUint8 ((x / 256 / 256 / 256) mod 256)] = x.
Proof.
  intros Hx. cbn [spec_le_value]. rewrite !byte_val_ToUint8.
  rewrite !Z.mod_mod by lia.
  pose proof (Z.div_mod x 256).
  pose proof (Z.div_mod (x / 256) 256).
  pose proof (Z.div_mod (x / 256 / 256) 256).
  assert (x / 256 / 256 / 256 < 256).
  { rewrite !Z.div_div by lia. apply Z.div_lt_upper_bound; lia. }
  assert (0 <= x / 256 / 256 / 256) by (repeat apply Z.div_pos; lia).
  rewrite (Z.mod_small (x / 256 / 256 / 256)) by lia.
  lia.
Qed.

Lemma spec_le_value_bytes2 (x : Z) :
  0 <= x < 2 ^ 16 ->
  spec_le_value [Js.ToUint8 (x mod 256); Js.ToUint8 ((x / 256) mod 256)] = x.
Proof.
  intros Hx. cbn [spec_le_value]. rewrite !byte_val_ToUint8.
  rewrite !Z.mod_mod by lia.
  pose proof (Z.div_mod x 256).
  assert (x / 256 < 256) by (apply Z.div_lt_upper_bound; lia).
  assert (0 <= x / 256) by (apply Z.div_pos; lia).
  rewrite (Z.mod_small (x / 256)) by lia.
  lia.
Qed.

(** C7: for [imageLen] and [offset] that fit in 32 bits, the BEGIN frame
    is 16 bytes: the command byte 0x02, three reserved zero bytes, one
    zero 32-bit word of padding, [imageLen] in 4 bytes little-endian and
    [offset] in the final 4 bytes little-endian. *)
Theorem flashBegin_layout (imageLen offset : Z) :
  0 <= imageLen < 2 ^ 32 ->
  0 <= offset < 2 ^ 32 ->
  flashBegin imageLen offset =
    [Byte.x02] ++ [Byte.x00; Byte.x00; Byte.x00]
      ++ [Byte.x00; Byte.x00; Byte.x00; Byte.x00]
      ++ spec_le_bytes 4 imageLen ++ spec_le_bytes 4 offset
  /\ List.length (flashBegin imageLen offset) = 16%nat
  /\ spec_le_value (spec_le_bytes 4 imageLen) = imageLen
  /\ spec_le_value (spec_le_bytes 4 offset) = offset.
Proof.
  intros Hl Ho.
  assert (Hle : forall x,
             spec_le_bytes 4 x =
             [Js.ToUint8 (x mod 256); Js.ToUint8 ((x / 256) mod 256);
              Js.ToUint8 ((x / 256 / 256) mod 256);
              Js.ToUint8 ((x / 256 / 256 / 256) mod 256)]).
  { intros x. reflexivity. }
  rewrite flashBegin_bytes, !Hle.
  repeat split; try reflexivity; now apply spec_le_value_bytes4.
Qed.

Lemma flashBegin_layout_witness :
  flashBegin 300 0x10000 =
    [Byte.x02] ++ [Byte.x00; Byte.x00; Byte.x00]
      ++ [Byte.x00; Byte.x00; Byte.x00; Byte.x00]
      ++ spec_le_bytes 4 300 ++ spec_le_bytes 4 0x10000
  /\ List.length (flashBegin 300 0x10000) = 16%nat
  /\ spec_le_value (spec_le_bytes 4 300) = 300
  /\ spec_le_value (spec_le_bytes 4 0x10000) = 0x10000.
Proof.
  apply (flashBegin_layout 300 0x10000); lia.
Defined.

(** C8: decoding the BEGIN frame gives back [imageLen] and [offset] when
    both fit in 32 bits, and decoding the DATA frame of a chunk of at most
    256 bytes gives back the chunk's length and its bytes. *)
Theorem framing_round_trip (imageLen offset : Z) (chunk : list Byte.byte) :
  0 <= imageLen < 2 ^ 32 ->
  0 <= offset < 2 ^ 32 ->
  (List.length chunk <= 256)%nat ->
  spec_decodeFlashBegin (flashBegin imageLen offset) = Some (imageLen, offset)
  /\ spec_decodeFlashData (chunkData chunk)
     = Some (Z.of_nat (List.length chunk), chunk).
Proof.
  intros Hl Ho Hc. split.
  - rewrite flashBegin_bytes. unfold spec_decodeFlashBegin.
    change (Byte.eqb Byte.x02 Byte.x02) with true. cbv iota.
    now rewrite !spec_le_value_bytes4.
  - rewrite chunkData_bytes. unfold spec_decodeFlashData.
    rewrite spec_le_value_bytes2 by lia.
    change (Byte.eqb Byte.x03 Byte.x03) with true.
    now rewrite Z.eqb_refl.
Qed.

Lemma framing_round_trip_witness :
  spec_decodeFlashBegin (flashBegin 300 0x10000) = Some (300, 0x10000)
  /\ spec_decodeFlashData (chunkData [Byte.x41; Byte.x42; Byte.x43])
     = Some (3, [Byte.x41; Byte.x42; Byte.x43]).
Proof.
  apply (framing_round_trip 300 0x10000 [Byte.x41; Byte.x42; Byte.x43]);
    simpl; lia.
Defined.

(** ** The log *)

Lemma slice_last100 {A : Type} (l : list A) :
  Js.slice l (-100) None = last100 l.
Proof.
  unfold Js.slice, last100. cbv zeta.
  change (-100 <? 0) with true. cbv iota.
  replace (Z.to_nat (Z.max (Z.of_nat (List.length l) + -100) 0))
    with (List.length l - 100)%nat by lia.
  apply firstn_all2. rewrite length_skipn. lia.
Qed.

Lemma last100_length {A : Type} (l : list A) :
  (List.length (last100 l) <= 100)%nat.
Proof.
  unfold last100. rewrite length_skipn. lia.
Qed.

Lemma last100_short {A : Type} (l : list A) :
  (List.length l <= 100)%nat -> last100 l = l.
Proof.
  intros H. unfold last100.
  replace (List.length l - 100)%nat with 0%nat by lia. reflexivity.
Qed.

Lemma last100_suffix {A : Type} (l : list A) :
  exists dropped, l = dropped ++ last100 l.
Proof.
  exists (firstn (List.length l - 100) l). unfold last100.
  symmetry. apply firstn_skipn.
Qed.

(** Trimming twice is trimming once: the entries dropped early would be
    dropped anyway. *)
Lemma last100_app_last100 {A : Type} (l es : list A) :
  last100 (last100 l ++ es) = last100 (l ++ es).
Proof.
  destruct (Nat.le_gt_cases (List.length l) 100) as [Hs|Hl].
  - now rewrite (last100_short l Hs).
  - destruct (last100_suffix l) as [d Hd].
    assert (Hlen : List.length (last100 l) = 100%nat).
    { unfold last100. rewrite length_skipn. lia. }
    rewrite Hd at 2. rewrite <- app_assoc.
    unfold last100 at 1 3. rewrite !length_app, Hlen.
    replace (List.length d + (100 + List.length es) - 100)%nat
      with ((100 + List.length es - 100) + List.length d)%nat by lia.
    rewrite <- skipn_skipn.
    now rewrite (skipn_app (List.length d)), skipn_all, Nat.sub_diag.
Qed.

Lemma addLog_logs (message : string) (type : option LogType.t) (w : World) :
  logs (state (fst (addLog message type w))) =
  last100 (logs (state w) ++
           [{| message := message;
               type := match type with Some t => t | None => LogType.info end;
               timestamp := clock w |}]).
Proof.
  unfold addLog, setState. cbn [fst state logs]. apply slice_last100.
Qed.

Lemma addLogs_bounded (appends : list (string * option LogType.t)) (w : World) :
  (List.length (logs (state w)) <= 100)%nat ->
  (List.length (logs (state (addLogs appends w))) <= 100)%nat.
Proof.
  revert w. induction appends as [|[m t] rest IH]; intros w Hw; [exact Hw|].
  cbn [addLogs]. apply IH. rewrite addLog_logs. apply last100_length.
Qed.

(** C6: after every sequence of appends the log holds at most 100
    entries, and an append to a log of exactly 100 entries drops the
    oldest entry and keeps the other 99 in order before the new one. *)
Theorem log_bounded_drop_oldest
    (appends : list (string * option LogType.t))
    (message : string) (type : option LogType.t) (w : World) :
  (List.length (logs (state w)) <= 100)%nat ->
  let w1 := addLogs appends w in
  let w2 := fst (addLog message type w1) in
  let entry := {| message := message;
                  type := match type with Some t => t | None => LogType.info end;
                  timestamp := clock w1 |} in
  (List.length (logs (state w1)) <= 100)%nat
  /\ (List.length (logs (state w2)) <= 100)%nat
  /\ ((List.length (logs (state w1)) < 100)%nat ->
      logs (state w2) = logs (state w1) ++ [entry])
  /\ (List.length (logs (state w1)) = 100%nat ->
      logs (state w2) = tl (logs (state w1)) ++ [entry]
      /\ List.length (logs (state w2)) = 100%nat).
Proof.
  intros Hw w1 w2 entry.
  assert (H1 : (List.length (logs (state w1)) <= 100)%nat)
    by (apply addLogs_bounded; exact Hw).
  assert (H2 : logs (state w2) = last100 (logs (state w1) ++ [entry]))
    by (apply addLog_logs).
  split; [exact H1|]. split; [rewrite H2; apply last100_length|].
  split.
  - intros Hlt. rewrite H2. apply last100_short.
    rewrite length_app. simpl. lia.
  - intros Hfull. rewrite H2. unfold last100.
    rewrite length_app, Hfull. cbn [List.length Nat.add Nat.sub].
    replace (100 + 1 - 100)%nat with 1%nat by lia.
    destruct (logs (state w1)) as [|oldest rest] eqn:E; [discriminate|].
    cbn [app skipn tl]. split; [reflexivity|].
    rewrite length_app. simpl in Hfull. simpl. lia.
Qed.

Lemma log_bounded_drop_oldest_witness :
  let appends :=
    map (fun n => (Js.toString (Z.of_nat n), @None LogType.t)) (seq 0 100) in
  let w1 := addLogs appends initialWorld in
  (List.length (logs (state initialWorld)) <= 100)%nat
  /\ List.length (logs (state w1)) = 100%nat
  /\ map message
       (logs (state (fst (addLog "newest" (Some LogType.warning) w1))))
     = map (fun n => Js.toString (Z.of_nat n)) (seq 1 99) ++ ["newest"%string].
Proof.
  intros appends w1. subst w1.
  assert (Hw : (List.length (logs (state initialWorld)) <= 100)%nat)
    by (simpl; lia).
  assert (Hfull : List.length (logs (state (addLogs appends initialWorld)))
                  = 100%nat)
    by (vm_compute; reflexivity).
  split; [exact Hw|]. split; [exact Hfull|].
  destruct (log_bounded_drop_oldest appends "newest" (Some LogType.warning)
              initialWorld Hw) as (_ & _ & _ & Hdrop).
  destruct (Hdrop Hfull) as [Heq _].
  rewrite Heq. vm_compute. reflexivity.
Defined.

(** C9: [clearLogs] empties the log and changes nothing else: the
    connected flag, the flashing flag, the progress record and the error
    field are as before, and so are the refs and the transport. *)
Theorem clearLogs_frame (w : World) :
  snd (clearLogs w) = Return tt
  /\ logs (state (fst (clearLogs w))) = []
  /\ isConnected (state (fst (clearLogs w))) = isConnected (state w)
  /\ isFlashing (state (fst (clearLogs w))) = isFlashing (state w)
  /\ progress (state (fst (clearLogs w))) = progress (state w)
  /\ error (state (fst (clearLogs w))) = error (state w)
  /\ portRef (fst (clearLogs w)) = portRef w
  /\ readerRef (fst (clearLogs w)) = readerRef w
  /\ sent (fst (clearLogs w)) = sent w
  /\ attempts (fst (clearLogs w)) = attempts w.
Proof.
  unfold clearLogs, setState. cbn. repeat split.
Qed.

(** C10: [addLog] called without a category behaves as [addLog] called
    with [info]: the entry it appends, the newest of the log, has
    category [info]. *)
Theorem addLog_default_info (message : string) (w : World) :
  addLog message None w = addLog message (Some LogType.info) w
  /\ exists older,
       logs (state (fst (addLog message None w))) =
       older ++ [{| message := message; type := LogType.info;
                    timestamp := clock w |}].
Proof.
  split; [reflexivity|].
  rewrite addLog_logs. unfold last100.
  exists (skipn (List.length (logs (state w) ++
                   [{| message := message; type := LogType.info;
                       timestamp := clock w |}]) - 100) (logs (state w))).
  rewrite skipn_app, length_app. cbn [List.length].
  replace (List.length (logs (state w)) + 1 - 100 - List.length (logs (state w)))%nat
    with 0%nat by lia.
  reflexivity.
Qed.

(** ** Running the primitives *)

Section Runs.

Variable host : Host.

Lemma write_ok (data : list Byte.byte) (w : World) :
  port_writable w ->
  writer_write host (attempts w) = None ->
  write host data w =
  ({| state := state w; portRef := portRef w; readerRef := readerRef w;
      clock := clock w; sent := sent w ++ [data];
      attempts := S (attempts w) |}, Return tt).
Proof.
  intros (p & Hp & Hwr) Hok. unfold write. now rewrite Hp, Hwr, Hok.
Qed.

Lemma write_fail (data : list Byte.byte) (w : World) (e : JsValue) :
  port_writable w ->
  writer_write host (attempts w) = Some e ->
  write host data w =
  ({| state := state w; portRef := portRef w; readerRef := readerRef w;
      clock := clock w; sent := sent w;
      attempts := S (attempts w) |}, Throw e).
Proof.
  intros (p & Hp & Hwr) Hko. unfold write. now rewrite Hp, Hwr, Hko.
Qed.

Lemma flash_chunk_ok (fileData : list Byte.byte) (i : Z) (w : World) :
  port_writable w ->
  writer_write host (attempts w) = None ->
  let len := Z.of_nat (List.length fileData) in
  flash_chunk host fileData i w =
  ({| state := {|
        isConnected := isConnected (state w);
        isFlashing := isFlashing (state w);
        progress := chunk_progress fileData i;
        logs := last100
                  (logs (state w) ++
                   [{| message :=
                         ("Flashed " ++ Js.toString (Z.min (i + chunkSize) len)
                          ++ "/" ++ Js.toString len ++ " bytes")%string;
                       type := LogType.info;
                       timestamp := clock w + 50 |}]);
        error := error (state w) |};
      portRef := portRef w; readerRef := readerRef w;
      clock := clock w + 50;
      sent := sent w ++
              [chunkData (Js.slice fileData i (Some (Z.min (i + chunkSize) len)))];
      attempts := S (attempts w) |}, Return tt).
Proof.
  intros Hp Hok len. unfold flash_chunk.
  unfold bind at 1. rewrite (write_ok _ w Hp Hok).
  unfold bind, sleep, setState, addLog, setState.
  cbn [state portRef readerRef clock sent attempts
       isConnected isFlashing progress logs error].
  rewrite slice_last100. reflexivity.
Qed.

Lemma flash_chunk_fail (fileData : list Byte.byte) (i : Z) (w : World)
      (e : JsValue) :
  port_writable w ->
  writer_write host (attempts w) = Some e ->
  flash_chunk host fileData i w =
  ({| state := state w; portRef := portRef w; readerRef := readerRef w;
      clock := clock w; sent := sent w;
      attempts := S (attempts w) |}, Throw e).
Proof.
  intros Hp Hko. unfold flash_chunk.
  unfold bind at 1. now rewrite (write_fail _ w e Hp Hko).
Qed.

Lemma flash_chunk_returns_or_throws (fileData : list Byte.byte) (i : Z)
      (w : World) :
  snd (flash_chunk host fileData i w) <> OutOfFuel.
Proof.
  unfold flash_chunk, bind, write, throw.
  destruct (portRef w) as [p|]; [destruct (writable p)|];
    try (cbn; discriminate).
  destruct (writer_write host (attempts w)); cbn; discriminate.
Qed.

(** The loop never uses up its bound: each iteration advances [i] by 256
    and the bound is one more than the number of bytes left. *)
Lemma flash_loop_terminates (fileData : list Byte.byte) (fuel : nat) :
  forall (i : Z) (w : World),
    (0 < fuel)%nat ->
    Z.of_nat (List.length fileData) - i < Z.of_nat fuel ->
    snd (flash_loop host fuel fileData i w) <> OutOfFuel.
Proof.
  induction fuel as [|fuel IH]; intros i w Hpos Hfuel; [lia|].
  - cbn [flash_loop].
    destruct (i <? Z.of_nat (List.length fileData)) eqn:Hlt;
      [|cbn; discriminate].
    apply Z.ltb_lt in Hlt. unfold bind.
    pose proof (flash_chunk_returns_or_throws fileData i w) as Hc.
    destruct (flash_chunk host fileData i w) as [w1 [[]|e|]];
      cbn [snd] in *; try discriminate; try congruence.
    apply IH; unfold chunkSize; lia.
Qed.

Lemma appendLogs_app (l es1 es2 : list LogEntry) :
  appendLogs l (es1 ++ es2) = appendLogs (appendLogs l es1) es2.
Proof.
  revert l. induction es1 as [|e es1 IH]; intros l; [reflexivity|].
  cbn [app appendLogs]. apply IH.
Qed.

Lemma appendLogs_last100 (l es : list LogEntry) :
  es <> [] -> appendLogs l es = last100 (l ++ es).
Proof.
  revert l. induction es as [|e es IH]; intros l Hne; [congruence|].
  cbn [appendLogs]. destruct es as [|e' es'].
  - reflexivity.
  - rewrite IH by discriminate. rewrite last100_app_last100.
    now rewrite <- app_assoc.
Qed.

(** The loop when the transport accepts [n] DATA frames and rejects the
    next one, started at iteration [j]. *)
Lemma flash_loop_fails (fileData : list Byte.byte) (n : nat) :
  forall (fuel j : nat) (w : World) (e : JsValue),
    (n < fuel)%nat ->
    port_writable w ->
    accepts host (attempts w) n ->
    writer_write host (attempts w + n) = Some e ->
    chunkSize * Z.of_nat (j + n) < Z.of_nat (List.length fileData) ->
    exists w' infos,
      flash_loop host fuel fileData (chunkSize * Z.of_nat j) w = (w', Throw e)
      /\ sent w' =
         sent w ++ map (fun k => chunkData (chunk_at fileData k)) (seq j n)
      /\ attempts w' = (attempts w + S n)%nat
      /\ portRef w' = portRef w
      /\ isConnected (state w') = isConnected (state w)
      /\ isFlashing (state w') = isFlashing (state w)
      /\ error (state w') = error (state w)
      /\ logs (state w') = appendLogs (logs (state w)) infos
      /\ List.length infos = n
      /\ Forall (fun x => type x = LogType.info) infos
      /\ progress (state w') =
         match n with
         | O => progress (state w)
         | S _ => chunk_progress fileData (chunkSize * Z.of_nat (j + n - 1))
         end.
Proof.
  induction n as [|n IH]; intros fuel j w e Hfuel Hp Hacc Hfail Hlen.
  - destruct fuel as [|fuel]; [lia|]. cbn [flash_loop].
    rewrite Nat.add_0_r in Hfail, Hlen.
    apply Z.ltb_lt in Hlen. rewrite Hlen. unfold bind.
    rewrite (flash_chunk_fail fileData _ w e Hp Hfail).
    eexists. exists []. split; [reflexivity|].
    cbn. rewrite app_nil_r.
    repeat split; try lia. constructor.
  - destruct fuel as [|fuel]; [lia|]. cbn [flash_loop].
    assert (Hi : chunkSize * Z.of_nat j < Z.of_nat (List.length fileData))
      by (unfold chunkSize in *; lia).
    apply Z.ltb_lt in Hi. rewrite Hi. unfold bind.
    assert (Hok : writer_write host (attempts w) = None).
    { specialize (Hacc 0%nat). rewrite Nat.add_0_r in Hacc. apply Hacc. lia. }
    rewrite (flash_chunk_ok fileData _ w Hp Hok). cbv zeta.
    match goal with
    | |- context [flash_loop host fuel fileData _ ?w1] => set (w1' := w1)
    end.
    replace (chunkSize * Z.of_nat j + chunkSize)
      with (chunkSize * Z.of_nat (S j)) by lia.
    destruct (IH fuel (S j) w1' e) as (w' & infos & Hrun & Hs & Ha & Hport
                                        & Hc & Hf & He & Hl & Hn & Hall & Hpr).
    + lia.
    + destruct Hp as (p & Hp & Hwr). exists p. split; assumption.
    + intros m Hm. subst w1'. cbn [attempts].
      replace (S (attempts w) + m)%nat with (attempts w + S m)%nat by lia.
      apply Hacc. lia.
    + subst w1'. cbn [attempts].
      replace (S (attempts w) + n)%nat with (attempts w + S n)%nat by lia.
      exact Hfail.
    + replace (S j + n)%nat with (j + S n)%nat by lia. exact Hlen.
    + exists w'.
      eexists ({| message := _; type := LogType.info; timestamp := _ |} :: infos).
      split; [exact Hrun|].
      subst w1'.
      cbn [attempts sent state portRef isConnected isFlashing error logs
           progress] in Hs, Ha, Hport, Hc, Hf, He, Hl, Hpr.
      repeat split.
      * rewrite Hs, <- app_assoc. reflexivity.
      * lia.
      * exact Hport.
      * exact Hc.
      * exact Hf.
      * exact He.
      * cbn [appendLogs]. exact Hl.
      * cbn [List.length]. lia.
      * constructor; [reflexivity | exact Hall].
      * rewrite Hpr. destruct n as [|n'].
        -- f_equal. f_equal. lia.
        -- f_equal. f_equal. lia.
Qed.

(** The loop when the transport accepts the frames of all [n] chunks that
    are left at iteration [j]. *)
Lemma flash_loop_succeeds (fileData : list Byte.byte) (n : nat) :
  forall (fuel j : nat) (w : World),
    (n < fuel)%nat ->
    port_writable w ->
    accepts host (attempts w) n ->
    Z.of_nat (List.length fileData) <= chunkSize * Z.of_nat (j + n) ->
    ((0 < n)%nat ->
     chunkSize * Z.of_nat (j + n - 1) < Z.of_nat (List.length fileData)) ->
    exists w' infos,
      flash_loop host fuel fileData (chunkSize * Z.of_nat j) w = (w', Return tt)
      /\ sent w' =
         sent w ++ map (fun k => chunkData (chunk_at fileData k)) (seq j n)
      /\ attempts w' = (attempts w + n)%nat
      /\ portRef w' = portRef w
      /\ isConnected (state w') = isConnected (state w)
      /\ isFlashing (state w') = isFlashing (state w)
      /\ error (state w') = error (state w)
      /\ logs (state w') = appendLogs (logs (state w)) infos
      /\ List.length infos = n
      /\ Forall (fun x => type x = LogType.info) infos
      /\ progress (state w') =
         match n with
         | O => progress (state w)
         | S _ => chunk_progress fileData (chunkSize * Z.of_nat (j + n - 1))
         end.
Proof.
  induction n as [|n IH]; intros fuel j w Hfuel Hp Hacc Hend Hlast.
  - destruct fuel as [|fuel]; [lia|]. cbn [flash_loop].
    rewrite Nat.add_0_r in Hend.
    apply Z.ltb_ge in Hend. rewrite Hend.
    exists w, []. split; [reflexivity|].
    cbn. rewrite app_nil_r.
    repeat apply conj; try reflexivity; try lia. constructor.
  - destruct fuel as [|fuel]; [lia|]. cbn [flash_loop].
    assert (Hi : chunkSize * Z.of_nat j < Z.of_nat (List.length fileData)).
    { specialize (Hlast ltac:(lia)). unfold chunkSize in *. lia. }
    apply Z.ltb_lt in Hi. rewrite Hi. unfold bind.
    assert (Hok : writer_write host (attempts w) = None).
    { specialize (Hacc 0%nat). rewrite Nat.add_0_r in Hacc. apply Hacc. lia. }
    rewrite (flash_chunk_ok fileData _ w Hp Hok). cbv zeta.
    match goal with
    | |- context [flash_loop host fuel fileData _ ?w1] => set (w1' := w1)
    end.
    replace (chunkSize * Z.of_nat j + chunkSize)
      with (chunkSize * Z.of_nat (S j)) by lia.
    destruct (IH fuel (S j) w1') as (w' & infos & Hrun & Hs & Ha & Hport
                                      & Hc & Hf & He & Hl & Hn & Hall & Hpr).
    + lia.
    + destruct Hp as (p & Hp & Hwr). exists p. split; assumption.
    + intros m Hm. subst w1'. cbn [attempts].
      replace (S (attempts w) + m)%nat with (attempts w + S m)%nat by lia.
      apply Hacc. lia.
    + replace (S j + n)%nat with (j + S n)%nat by lia. exact Hend.
    + intros Hn. replace (S j + n - 1)%nat with (j + S n - 1)%nat by lia.
      apply Hlast. lia.
    + exists w'.
      eexists ({| message := _; type := LogType.info; timestamp := _ |} :: infos).
      split; [exact Hrun|].
      subst w1'.
      cbn [attempts sent state portRef isConnected isFlashing error logs
           progress] in Hs, Ha, Hport, Hc, Hf, He, Hl, Hpr.
      repeat apply conj.
      * rewrite Hs, <- app_assoc. reflexivity.
      * lia.
      * exact Hport.
      * exact Hc.
      * exact Hf.
      * exact He.
      * cbn [appendLogs]. exact Hl.
      * cbn [List.length]. lia.
      * constructor; [reflexivity | exact Hall].
      * rewrite Hpr. destruct n as [|n'].
        -- f_equal. f_equal. lia.
        -- f_equal. f_equal. lia.
Qed.

(** ** Every call answers *)

Lemma terminates_bind {A B : Type} (m : M A) (k : A -> M B) :
  terminates m -> (forall a, terminates (k a)) -> terminates (bind m k).
Proof.
  intros Hm Hk w. unfold bind. specialize (Hm w).
  destruct (m w) as [w1 [a|e|]]; cbn [snd] in *;
    [apply Hk | discriminate | congruence].
Qed.

Lemma terminates_try_catch {A : Type} (body : M A) (handler : JsValue -> M A) :
  terminates body -> (forall e, terminates (handler e)) ->
  terminates (try_catch body handler).
Proof.
  intros Hb Hh w. unfold try_catch. specialize (Hb w).
  destruct (body w) as [w1 [a|e|]]; cbn [snd] in *;
    [discriminate | apply Hh | congruence].
Qed.

Lemma terminates_ret {A : Type} (a : A) : terminates (ret a).
Proof. intros w. cbn. discriminate. Qed.

Lemma terminates_throw {A : Type} (e : JsValue) : terminates (@throw A e).
Proof. intros w. cbn. discriminate. Qed.

Lemma terminates_setState (f : FlasherState -> FlasherState) :
  terminates (setState f).
Proof. intros w. cbn. discriminate. Qed.

Lemma terminates_sleep (ms : Z) : terminates (sleep ms).
Proof. intros w. cbn. discriminate. Qed.

Lemma terminates_addLog (message : string) (type : option LogType.t) :
  terminates (addLog message type).
Proof. intros w. cbn. discriminate. Qed.

Lemma terminates_write (data : list Byte.byte) : terminates (write host data).
Proof.
  intros w. unfold write, throw.
  destruct (portRef w) as [p|]; [destruct (writable p)|];
    try (cbn; discriminate).
  destruct (writer_write host (attempts w)); cbn; discriminate.
Qed.

Lemma terminates_flash_loop (fileData : list Byte.byte) :
  terminates (flash_loop host (S (List.length fileData)) fileData 0).
Proof.
  intros w. apply flash_loop_terminates; lia.
Qed.

Create HintDb answers.
#[local] Hint Resolve terminates_ret terminates_throw terminates_setState
  terminates_sleep terminates_addLog terminates_write terminates_flash_loop
  : answers.
#[local] Hint Extern 2 (terminates (bind _ _)) =>
  apply terminates_bind; [|intros ?; cbv beta] : answers.
#[local] Hint Extern 2 (terminates (try_catch _ _)) =>
  apply terminates_try_catch; [|intros ?; cbv beta] : answers.

(** [flashFirmware] returns or throws from every world, whatever the host
    answers: the bound of the chunk loop is never reached. *)
Lemma flashFirmware_terminates (fileData : list Byte.byte) (offset : option Z) :
  terminates (flashFirmware host fileData offset).
Proof.
  intros w. unfold flashFirmware.
  destruct (portRef w) as [p|]; [|cbn; discriminate].
  apply terminates_bind; [auto with answers|].
  intros _. auto 30 with answers.
Qed.

End Runs.

(** ** Runs of [flashFirmware] *)

Lemma filter_is_error_infos (infos : list LogEntry) :
  Forall (fun x => type x = LogType.info) infos -> filter is_error infos = [].
Proof.
  induction 1 as [|x l Hx _ IH]; [reflexivity|].
  cbn [filter]. unfold is_error at 1. rewrite Hx. exact IH.
Qed.

(** Runs [flashFirmware] up to its first [write]: the guard, the opening
    [setState] and the three log lines. *)
Ltac flash_start Hport :=
  unfold flashFirmware; rewrite Hport;
  unfold bind at 1; unfold setState at 1; cbv beta iota;
  unfold try_catch at 1;
  do 3 (unfold bind at 1; unfold addLog at 1, setState at 1; cbv beta iota zeta);
  cbn [state portRef readerRef clock sent attempts
       isConnected isFlashing progress logs error];
  rewrite !slice_last100.

Ltac run_projections :=
  cbn [state portRef readerRef clock sent attempts
       isConnected isFlashing progress logs error fst snd].

(** A run of [flashFirmware] in which the transport accepts the BEGIN frame
    and the first [k - 1] DATA frames and rejects the [k]-th with [e]. *)
Lemma flashFirmware_data_failure_run
    (host : Host) (fileData : list Byte.byte) (offset : option Z)
    (w : World) (k : nat) (e : JsValue) :
  port_writable w ->
  (1 <= k)%nat ->
  chunkSize * Z.of_nat (k - 1) < Z.of_nat (List.length fileData) ->
  accepts host (attempts w) k ->
  writer_write host (attempts w + k) = Some e ->
  exists w' infos err,
    flashFirmware host fileData offset w = (w', Throw e)
    /\ sent w' =
       sent w ++
       flashBegin (Z.of_nat (List.length fileData))
                  (match offset with Some o => o | None => 0x10000 end)
       :: map (fun j => chunkData (chunk_at fileData j)) (seq 0 (k - 1))
    /\ attempts w' = (attempts w + k + 1)%nat
    /\ isFlashing (state w') = false
    /\ error (state w') = Some (message_of e "Flash failed")
    /\ logs (state w') = last100 (logs (state w) ++ infos ++ [err])
    /\ Forall (fun x => type x = LogType.info) infos
    /\ List.length infos = (3 + (k - 1))%nat
    /\ err = errorLog e (clock w')
    /\ progress (state w') =
       match (k - 1)%nat with
       | O => {| current := 0; total := Z.of_nat (List.length fileData);
                 percentage := Js.of_Z 0 |}
       | S _ => chunk_progress fileData (chunkSize * Z.of_nat (k - 2))
       end.
Proof.
  intros Hp Hk Hchunk Hacc Hfail.
  pose proof Hp as (p & Hport & Hwr).
  flash_start Hport.
  (* the BEGIN frame is accepted *)
  assert (Hbegin : writer_write host (attempts w) = None).
  { specialize (Hacc 0%nat). rewrite Nat.add_0_r in Hacc. apply Hacc. lia. }
  unfold bind at 1.
  rewrite write_ok; [|exists p; split; assumption|exact Hbegin].
  run_projections.
  unfold bind at 1, sleep at 1. run_projections.
  (* the loop accepts k - 1 DATA frames and fails on the next *)
  match goal with
  | |- context [bind (flash_loop _ _ _ _) _ ?w1] => set (w1' := w1)
  end.
  destruct (flash_loop_fails host fileData (k - 1) (S (List.length fileData))
              0 w1' e)
    as (w2 & infos & Hrun & Hs & Ha & Hpo & _ & _ & _ & Hl & Hn & Hall & Hpr).
  { unfold chunkSize in Hchunk. lia. }
  { exists p. split; assumption. }
  { intros m Hm. subst w1'. cbn [attempts].
    replace (S (attempts w) + m)%nat with (attempts w + S m)%nat by lia.
    apply Hacc. lia. }
  { subst w1'. cbn [attempts].
    replace (S (attempts w) + (k - 1))%nat with (attempts w + k)%nat by lia.
    exact Hfail. }
  { exact Hchunk. }
  unfold bind at 1. change (chunkSize * Z.of_nat 0) with 0 in Hrun.
  rewrite Hrun.
  (* the handler *)
  unfold bind at 1, setState at 1. cbv beta iota.
  unfold bind at 1, addLog at 1, setState at 1. cbv beta iota zeta.
  unfold throw. run_projections. rewrite slice_last100.
  subst w1'. run_projections.
  cbn [state logs sent attempts progress] in Hs, Ha, Hl, Hpr.
  set (off := match offset with Some o => o | None => 65536 end) in *.
  change (last100 (last100 (last100 (logs (state w) ++ [?a]) ++ [?b]) ++ [?c]))
    with (appendLogs (logs (state w))
            (startLogs (Z.of_nat (List.length fileData)) off (clock w))) in *.
  exists {| state := {| isConnected := isConnected (state w2);
                        isFlashing := false;
                        progress := progress (state w2);
                        logs := last100 (logs (state w2) ++ [errorLog e (clock w2)]);
                        error := Some (message_of e "Flash failed") |};
            portRef := portRef w2; readerRef := readerRef w2; clock := clock w2;
            sent := sent w2; attempts := attempts w2 |}.
  exists (startLogs (Z.of_nat (List.length fileData)) off (clock w) ++ infos).
  exists (errorLog e (clock w2)).
  split; [reflexivity|]. run_projections.
  repeat apply conj; try reflexivity.
  - rewrite Hs, <- app_assoc. reflexivity.
  - lia.
  - rewrite Hl.
    change (last100 (?l ++ [?x])) with (appendLogs l [x]).
    rewrite <- !appendLogs_app.
    rewrite appendLogs_last100 by (cbn; discriminate).
    now rewrite <- app_assoc.
  - apply Forall_app. split; [|exact Hall].
    repeat constructor.
  - rewrite length_app, Hn. reflexivity.
  - rewrite Hpr. destruct (k - 1)%nat as [|k'] eqn:Ek; [reflexivity|].
    f_equal. f_equal. lia.
Qed.

(** C4: when the transport rejects the [k]-th DATA frame with [e], the
    call throws [e]; the transport was handed the BEGIN frame and [k] DATA
    frames and nothing after the rejected one; [isFlashing] is false, the
    failure message is in [error], and the entries appended to the log are
    info lines followed by exactly one error-category entry. *)
Theorem flashFirmware_data_write_failure
    (host : Host) (fileData : list Byte.byte) (offset : option Z)
    (w : World) (k : nat) (e : JsValue) :
  port_writable w ->
  (1 <= k)%nat ->
  chunkSize * Z.of_nat (k - 1) < Z.of_nat (List.length fileData) ->
  accepts host (attempts w) k ->
  writer_write host (attempts w + k) = Some e ->
  exists w' infos err,
    flashFirmware host fileData offset w = (w', Throw e)
    /\ sent w' =
       sent w ++
       flashBegin (Z.of_nat (List.length fileData))
                  (match offset with Some o => o | None => 0x10000 end)
       :: map (fun j => chunkData (chunk_at fileData j)) (seq 0 (k - 1))
    /\ attempts w' = (attempts w + k + 1)%nat
    /\ isFlashing (state w') = false
    /\ error (state w') = Some (message_of e "Flash failed")
    /\ logs (state w') = last100 (logs (state w) ++ infos ++ [err])
    /\ Forall (fun x => type x = LogType.info) infos
    /\ List.length infos = (3 + (k - 1))%nat
    /\ type err = LogType.error
    /\ message err = ("Flash error: " ++ message_of e "Flash failed")%string
    /\ List.length (filter is_error (infos ++ [err])) = 1%nat.
Proof.
  intros Hp Hk Hchunk Hacc Hfail.
  destruct (flashFirmware_data_failure_run host fileData offset w k e
              Hp Hk Hchunk Hacc Hfail)
    as (w' & infos & err & Hrun & Hs & Ha & Hf & He & Hl & Hall & Hn & Herr & _).
  exists w', infos, err.
  repeat apply conj; try assumption.
  - rewrite Herr. reflexivity.
  - rewrite Herr. reflexivity.
  - rewrite filter_app, (filter_is_error_infos infos Hall), Herr. reflexivity.
Qed.

Lemma connectedWorld_writable : port_writable connectedWorld.
Proof. exists openPort. split; reflexivity. Qed.

Lemma flashFirmware_data_write_failure_witness :
  exists w' infos err,
    flashFirmware (failingHost 2 "boom") (repeat Byte.x41 1000) None
                  connectedWorld = (w', Throw (JsError "boom"))
    /\ List.length (sent w') = 2%nat
    /\ attempts w' = 3%nat
    /\ isFlashing (state w') = false
    /\ error (state w') = Some "boom"%string
    /\ logs (state w') = last100 (logs (state connectedWorld) ++ infos ++ [err])
    /\ List.length (filter is_error (infos ++ [err])) = 1%nat.
Proof.
  destruct (flashFirmware_data_write_failure
              (failingHost 2 "boom") (repeat Byte.x41 1000) None
              connectedWorld 2 (JsError "boom"))
    as (w' & infos & err & Hrun & Hs & Ha & Hf & He & Hl & _ & _ & _ & _ & Hone).
  - exact connectedWorld_writable.
  - lia.
  - vm_compute. reflexivity.
  - intros m Hm. destruct m as [|[|m]]; [reflexivity | reflexivity | lia].
  - reflexivity.
  - exists w', infos, err.
    repeat split; try assumption.
    rewrite Hs. reflexivity.
Defined.

(** C3 (as the code has it): for an image of 0 bytes, a successful
    [flashFirmware] sends a BEGIN frame whose length field is 00 00 00 00,
    no DATA frame, and the END frame; the final progress is
    [{0, 0, 100}]: the percentage is forced to 100. *)
Theorem flashFirmware_empty_image
    (host : Host) (offset : option Z) (w : World) :
  port_writable w ->
  accepts host (attempts w) 2 ->
  let off := match offset with Some o => o | None => 0x10000 end in
  exists w',
    flashFirmware host [] offset w = (w', Return tt)
    /\ sent w' = sent w ++ [flashBegin 0 off; flashEnd]
    /\ firstn 4 (skipn 8 (flashBegin 0 off))
       = [Byte.x00; Byte.x00; Byte.x00; Byte.x00]
    /\ flashEnd = [Byte.x04; Byte.x00]
    /\ attempts w' = (attempts w + 2)%nat
    /\ isFlashing (state w') = false
    /\ progress (state w') =
       {| current := 0; total := 0; percentage := Js.of_Z 100 |}.
Proof.
  intros Hp Hacc off.
  pose proof Hp as (p & Hport & Hwr).
  assert (H0 : writer_write host (attempts w) = None).
  { specialize (Hacc 0%nat). rewrite Nat.add_0_r in Hacc. apply Hacc. lia. }
  assert (H1 : writer_write host (S (attempts w)) = None).
  { specialize (Hacc 1%nat). rewrite Nat.add_1_r in Hacc. apply Hacc. lia. }
  flash_start Hport.
  unfold bind at 1.
  rewrite write_ok; [|exists p; split; assumption|exact H0].
  run_projections.
  unfold bind at 1, sleep at 1. run_projections.
  unfold bind at 1. cbn [flash_loop List.length Z.of_nat Z.ltb Z.compare ret].
  unfold bind at 1.
  rewrite write_ok; [|exists p; split; assumption|exact H1].
  run_projections.
  unfold bind at 1, sleep at 1. run_projections.
  unfold bind at 1, setState at 1. run_projections.
  unfold addLog, setState. run_projections.
  eexists. split; [reflexivity|]. run_projections.
  repeat apply conj; try reflexivity.
  - rewrite <- app_assoc. reflexivity.
  - lia.
Qed.

Lemma flashFirmware_empty_image_witness :
  exists w',
    flashFirmware reliableHost [] (Some 0x1000) connectedWorld = (w', Return tt)
    /\ sent w' = [flashBegin 0 0x1000; flashEnd]
    /\ progress (state w') =
       {| current := 0; total := 0; percentage := Js.of_Z 100 |}.
Proof.
  destruct (flashFirmware_empty_image reliableHost (Some 0x1000) connectedWorld)
    as (w' & Hrun & Hs & _ & _ & _ & _ & Hpr).
  - exact connectedWorld_writable.
  - intros m _. reflexivity.
  - exists w'. repeat split; assumption.
Defined.

(** Against C3 as stated: on an empty image the successful call ends with
    [percentage] 100, not 0. *)
Lemma empty_image_ends_at_100 :
  snd (flashFirmware reliableHost [] None connectedWorld) = Return tt
  /\ percentage (progress (state
       (fst (flashFirmware reliableHost [] None connectedWorld)))) = Js.of_Z 100
  /\ percentage (progress (state
       (fst (flashFirmware reliableHost [] None connectedWorld)))) <> Js.of_Z 0.
Proof.
  split; [reflexivity|]. split; [reflexivity|].
  vm_compute. discriminate.
Qed.

(** C5 (as the code has it): the iteration at index [i], entered with
    [current = i] and [total] the image length, leaves
    [current = min (current + 256) total], the same [total], and
    [percentage = Math.round (current / total * 100)]; [current] does not
    decrease and does not exceed [total], and equals the next loop index
    while bytes remain. *)
Theorem chunk_progress_step
    (host : Host) (fileData : list Byte.byte) (j : nat) (w : World) :
  let len := Z.of_nat (List.length fileData) in
  let i := chunkSize * Z.of_nat j in
  i < len ->
  port_writable w ->
  writer_write host (attempts w) = None ->
  current (progress (state w)) = i ->
  total (progress (state w)) = len ->
  exists w',
    flash_chunk host fileData i w = (w', Return tt)
    /\ current (progress (state w')) =
       Z.min (current (progress (state w)) + chunkSize)
             (total (progress (state w)))
    /\ total (progress (state w')) = total (progress (state w))
    /\ percentage (progress (state w')) =
       Js.Math_round
         (Js.mul (Js.div (Js.of_Z (current (progress (state w'))))
                         (Js.of_Z (total (progress (state w')))))
                 (Js.of_Z 100))
    /\ current (progress (state w)) <= current (progress (state w'))
    /\ current (progress (state w')) <= total (progress (state w'))
    /\ (current (progress (state w')) < total (progress (state w')) ->
        current (progress (state w')) = chunkSize * Z.of_nat (S j)).
Proof.
  intros len i Hi Hp Hok Hcur Htot.
  eexists. split; [apply (flash_chunk_ok host fileData i w Hp Hok)|].
  cbv zeta. run_projections. unfold chunk_progress. run_projections.
  fold len. rewrite Hcur, Htot. cbn [current total percentage].
  unfold chunkSize in *.
  repeat apply conj; try reflexivity; lia.
Qed.

Lemma chunk_progress_step_witness :
  let fileData := repeat Byte.x41 300 in
  let w := fst (flash_chunk reliableHost fileData 0 connectedWorld) in
  exists w',
    flash_chunk reliableHost fileData 256 w = (w', Return tt)
    /\ current (progress (state w)) = 256
    /\ current (progress (state w')) = 300
    /\ percentage (progress (state w')) = Js.of_Z 100.
Proof.
  intros fileData w.
  destruct (chunk_progress_step reliableHost fileData 1 w)
    as (w' & Hrun & Hc & Ht & Hpc & _).
  - vm_compute. reflexivity.
  - exists openPort. split; reflexivity.
  - reflexivity.
  - reflexivity.
  - reflexivity.
  - exists w'. split; [exact Hrun|]. split; [reflexivity|].
    split; [rewrite Hc; reflexivity|].
    rewrite Hpc, Hc, Ht. vm_compute. reflexivity.
Defined.

(** Against C5 as stated: on an image of 257 bytes the first chunk leaves
    [current = 256] and [percentage = Math.round (99.61...) = 100]
    although [current] is not [total]; a job stopped at the second DATA
    frame is left with that progress. *)
Lemma percentage_100_before_total :
  (exists w',
     flash_chunk reliableHost (repeat Byte.x41 257) 0
       (with_isFlashing true connectedWorld) = (w', Return tt)
     /\ percentage (progress (state w')) = Js.of_Z 100
     /\ current (progress (state w')) = 256
     /\ total (progress (state w')) = 257
     /\ current (progress (state w')) <> total (progress (state w')))
  /\ progress (state (fst (flashFirmware (failingHost 2 "unplugged")
                             (repeat Byte.x41 257) None connectedWorld)))
     = {| current := 256; total := 257; percentage := Js.of_Z 100 |}.
Proof.
  split.
  - eexists. split; [vm_compute; reflexivity|].
    cbn [state progress percentage current total].
    repeat apply conj; try reflexivity. discriminate.
  - vm_compute. reflexivity.
Qed.

(** With no port object held, [flashFirmware] throws the not-connected
    error and leaves the world, the transport included, as it found it. *)
Lemma flashFirmware_without_port
    (host : Host) (fileData : list Byte.byte) (offset : option Z) (w : World) :
  portRef w = None ->
  flashFirmware host fileData offset w
  = (w, Throw (JsError "Not connected to device")).
Proof.
  intros H. unfold flashFirmware. now rewrite H.
Qed.

Lemma flashFirmware_port_not_writable
    (host : Host) (fileData : list Byte.byte) (offset : option Z) (w : World)
    (p : SerialPort) :
  portRef w = Some p ->
  writable p = false ->
  let off := match offset with Some o => o | None => 0x10000 end in
  let e := JsError "Port not writable" in
  flashFirmware host fileData offset w =
  ({| state := {|
        isConnected := isConnected (state w);
        isFlashing := false;
        progress := {| current := 0; total := Z.of_nat (List.length fileData);
                       percentage := Js.of_Z 0 |};
        logs := appendLogs (logs (state w))
                  (startLogs (Z.of_nat (List.length fileData)) off (clock w)
                   ++ [errorLog e (clock w)]);
        error := Some "Port not writable"%string |};
      portRef := portRef w; readerRef := readerRef w; clock := clock w;
      sent := sent w; attempts := attempts w |},
   Throw e).
Proof.
  intros Hport Hwr off e.
  flash_start Hport.
  unfold bind at 1, write at 1. run_projections. rewrite Hport, Hwr.
  unfold bind, setState, addLog, setState, throw. run_projections.
  rewrite slice_last100. reflexivity.
Qed.

(** C1: after [connect] and [disconnect], [isConnected] is false but
    [portRef] still holds the closed port, so [flashFirmware] passes its
    guard: it throws "Port not writable" instead of the not-connected
    error, and although nothing is written to the transport the state has
    changed: progress is reset, [error] is set and four log entries are
    appended. *)
Theorem flashFirmware_after_disconnect
    (fileData : list Byte.byte) (offset : option Z) :
  let r := flashFirmware reliableHost fileData offset disconnectedWorld in
  isConnected (state disconnectedWorld) = false
  /\ snd r = Throw (JsError "Port not writable")
  /\ sent (fst r) = sent disconnectedWorld
  /\ attempts (fst r) = attempts disconnectedWorld
  /\ isFlashing (state (fst r)) = false
  /\ error (state (fst r)) = Some "Port not writable"%string
  /\ error (state disconnectedWorld) = None
  /\ progress (state (fst r)) =
     {| current := 0; total := Z.of_nat (List.length fileData);
        percentage := Js.of_Z 0 |}
  /\ List.length (logs (state (fst r))) =
     (List.length (logs (state disconnectedWorld)) + 4)%nat.
Proof.
  intros r. subst r.
  rewrite (flashFirmware_port_not_writable reliableHost fileData offset
             disconnectedWorld closedPort eq_refl eq_refl).
  run_projections.
  repeat apply conj; reflexivity.
Qed.

(** The invariant the loop keeps: after [k - 1] accepted DATA frames with
    bytes still to send, [current] is the index of the next iteration. *)
Lemma flashFirmware_current_is_loop_index
    (host : Host) (fileData : list Byte.byte) (offset : option Z)
    (w : World) (k : nat) (e : JsValue) :
  port_writable w ->
  (1 <= k)%nat ->
  chunkSize * Z.of_nat (k - 1) < Z.of_nat (List.length fileData) ->
  accepts host (attempts w) k ->
  writer_write host (attempts w + k) = Some e ->
  current (progress (state (fst (flashFirmware host fileData offset w))))
    = chunkSize * Z.of_nat (k - 1)
  /\ total (progress (state (fst (flashFirmware host fileData offset w))))
    = Z.of_nat (List.length fileData).
Proof.
  intros Hp Hk Hchunk Hacc Hfail.
  destruct (flashFirmware_data_failure_run host fileData offset w k e
              Hp Hk Hchunk Hacc Hfail)
    as (w' & infos & err & Hrun & _ & _ & _ & _ & _ & _ & _ & _ & Hpr).
  rewrite Hrun. cbn [fst]. rewrite Hpr.
  destruct (k - 1)%nat as [|k'] eqn:Ek.
  - cbn [current total]. split; [unfold chunkSize; lia | reflexivity].
  - unfold chunk_progress. cbn [current total]. unfold chunkSize in *.
    split; [lia | reflexivity].
Qed.

(** A run in which the transport accepts every frame: BEGIN, the DATA
    frames of all [n] chunks, END. *)
Lemma flashFirmware_succeeds
    (host : Host) (fileData : list Byte.byte) (offset : option Z)
    (w : World) (n : nat) :
  port_writable w ->
  Z.of_nat (List.length fileData) <= chunkSize * Z.of_nat n ->
  ((0 < n)%nat ->
   chunkSize * Z.of_nat (n - 1) < Z.of_nat (List.length fileData)) ->
  accepts host (attempts w) (n + 2) ->
  exists w',
    flashFirmware host fileData offset w = (w', Return tt)
    /\ sent w' =
       sent w ++
       flashBegin (Z.of_nat (List.length fileData))
                  (match offset with Some o => o | None => 0x10000 end)
       :: map (fun j => chunkData (chunk_at fileData j)) (seq 0 n)
       ++ [flashEnd]
    /\ attempts w' = (attempts w + n + 2)%nat
    /\ isConnected (state w') = isConnected (state w)
    /\ isFlashing (state w') = false
    /\ error (state w') = None
    /\ progress (state w') =
       {| current := Z.of_nat (List.length fileData);
          total := Z.of_nat (List.length fileData);
          percentage := Js.of_Z 100 |}.
Proof.
  intros Hp Hend Hlast Hacc.
  pose proof Hp as (p & Hport & Hwr).
  flash_start Hport.
  assert (Hbegin : writer_write host (attempts w) = None).
  { specialize (Hacc 0%nat). rewrite Nat.add_0_r in Hacc. apply Hacc. lia. }
  unfold bind at 1.
  rewrite write_ok; [|exists p; split; assumption|exact Hbegin].
  run_projections.
  unfold bind at 1, sleep at 1. run_projections.
  match goal with
  | |- context [bind (flash_loop _ _ _ _) _ ?w1] => set (w1' := w1)
  end.
  destruct (flash_loop_succeeds host fileData n (S (List.length fileData))
              0 w1')
    as (w2 & infos & Hrun & Hs & Ha & Hpo & Hc & _ & He & _).
  { destruct n as [|n']; [lia|]. specialize (Hlast ltac:(lia)).
    unfold chunkSize in Hlast. lia. }
  { exists p. split; assumption. }
  { intros m Hm. subst w1'. cbn [attempts].
    replace (S (attempts w) + m)%nat with (attempts w + S m)%nat by lia.
    apply Hacc. lia. }
  { exact Hend. }
  { exact Hlast. }
  unfold bind at 1. change (chunkSize * Z.of_nat 0) with 0 in Hrun.
  rewrite Hrun.
  subst w1'. cbn [state sent attempts portRef isConnected error] in Hs, Ha, Hpo, Hc, He.
  unfold bind at 1.
  rewrite write_ok;
    [| exists p; split; [congruence | assumption]
     | rewrite Ha;
       replace (S (attempts w) + n)%nat with (attempts w + S n)%nat by lia;
       apply Hacc; lia].
  unfold bind at 1, sleep at 1. run_projections.
  unfold bind at 1, setState at 1. run_projections.
  unfold addLog, setState. run_projections.
  eexists. split; [reflexivity|]. run_projections.
  repeat apply conj; try reflexivity; try assumption.
  - rewrite Hs, <- !app_assoc. reflexivity.
  - lia.
Qed.

(** ** Calls that overlap *)

(** One call at a time on the engine of overlapping calls. *)

Lemma try_catch_bind {A B : Type} (m : M A) (k : A -> M B)
      (h : JsValue -> M B) (w : World) :
  try_catch (bind m k) h w =
  match m w with
  | (w1, Return a) => try_catch (k a) h w1
  | (w1, Throw e) => h e w1
  | (w1, OutOfFuel) => (w1, OutOfFuel)
  end.
Proof.
  unfold try_catch, bind. destruct (m w) as [w1 [a|e|]]; reflexivity.
Qed.

Lemma try_catch_handler {A : Type} (m : M A) (h h' : JsValue -> M A)
      (w : World) :
  (forall e w1, h e w1 = h' e w1) ->
  try_catch m h w = try_catch m h' w.
Proof.
  intros Hh. unfold try_catch. destruct (m w) as [w1 [a|e|]]; auto.
Qed.

Lemma bind_setState {B : Type} (f : FlasherState -> FlasherState)
      (k : unit -> M B) (w : World) :
  bind (setState f) k w = k tt (fst (setState f w)).
Proof. reflexivity. Qed.

Lemma try_catch_addLog {B : Type} (message : string) (type : option LogType.t)
      (k : unit -> M B) (h : JsValue -> M B) (w : World) :
  try_catch (bind (addLog message type) k) h w
  = try_catch (k tt) h (fst (addLog message type w)).
Proof. reflexivity. Qed.

Lemma delay_nonneg (p : Point) : 0 <= delay p.
Proof. destruct p; cbn; lia. Qed.

Section Alone.

Variable host : Host.
Variable lockedMessage : string.
Variable fileData : list Byte.byte.

(** A frame is written and the pause after it is made: the events that
    take the one call there, given the events that take it on from the
    end of the pause. *)
Lemma write_pause_alone (p : Point) (data : list Byte.byte) (k : M unit)
      (w : World) :
  (forall w2,
     snd (try_catch k flash_rethrow w2) <> OutOfFuel ->
     exists evs r,
       ended (try_catch k flash_rethrow w2) = Some r
       /\ run_events host lockedMessage evs
            (alone fileData
               (resumed lockedMessage 0 fileData p
                  {| world := w2; writer := None |}))
          = alone fileData r) ->
  snd (try_catch (bind (write host data)
                    (fun _ => bind (sleep (delay p)) (fun _ => k)))
         flash_rethrow w) <> OutOfFuel ->
  exists evs r,
    ended (try_catch (bind (write host data)
                        (fun _ => bind (sleep (delay p)) (fun _ => k)))
             flash_rethrow w) = Some r
    /\ run_events host lockedMessage evs
         (alone fileData
            (write_called lockedMessage 0 p data
               {| world := w; writer := None |}))
       = alone fileData r.
Proof.
  intros Hk. rewrite try_catch_bind.
  unfold write, write_called. cbn [world writer].
  destruct (match portRef w with
            | Some port => writable port
            | None => false
            end) eqn:Hw.
  - destruct (writer_write host (attempts w)) as [e|] eqn:Ho.
    + intros _. exists [WriteSettles]. eexists. split; [reflexivity|].
      cbn [run_events deliver alone shared jobs fst snd writer pw_owner
           nth_error option_map job_state].
      unfold write_settled. cbn [pw_index world]. rewrite Ho. reflexivity.
    + rewrite try_catch_bind. unfold sleep at 1 2.
      intros Hfuel.
      destruct (Hk _ Hfuel) as (evs & r & Hended & Hrun).
      exists (WriteSettles :: TimerFires 0 :: evs), r.
      split; [exact Hended|].
      cbn [run_events deliver alone shared jobs fst snd writer pw_owner
           nth_error option_map job_state].
      unfold write_settled. cbn [pw_index pw_frame world]. rewrite Ho.
      cbn [fst snd nth_error job_state job_fileData earliest forallb
           set_job clock].
      rewrite Z.leb_refl. cbn [andb fst snd].
      unfold timer_fired, in_world, wake.
      cbn [world writer fst clock state portRef readerRef sent attempts].
      rewrite Z.max_r by (pose proof (delay_nonneg p); lia).
      exact Hrun.
  - intros _. exists []. eexists. split; [reflexivity|]. reflexivity.
Qed.


Lemma flash_tail_chunk (fuel : nat) (i : Z) (w : World) :
  (i <? Z.of_nat (List.length fileData)) = true ->
  try_catch (flash_tail host (S fuel) fileData i) flash_rethrow w =
  try_catch
    (bind (write host
             (chunkData
                (Js.slice fileData i
                   (Some (Z.min (i + chunkSize)
                            (Z.of_nat (List.length fileData)))))))
       (fun _ => bind (sleep (delay (AtChunk i)))
          (fun _ => bind (chunk_done fileData i)
             (fun _ => flash_tail host fuel fileData (i + chunkSize)))))
    flash_rethrow w.
Proof.
  intros Hlt. unfold flash_tail at 1. cbn [flash_loop]. rewrite Hlt.
  unfold flash_chunk, try_catch, bind.
  destruct (write host _ w) as [w1 [[]|e|]]; reflexivity.
Qed.

Lemma flash_tail_end (fuel : nat) (i : Z) (w : World) :
  (i <? Z.of_nat (List.length fileData)) = false ->
  try_catch (flash_tail host (S fuel) fileData i) flash_rethrow w =
  try_catch
    (bind (write host flashEnd)
       (fun _ => bind (sleep (delay AtEnd)) (fun _ => flash_done fileData)))
    flash_rethrow w.
Proof.
  intros Hlt. unfold flash_tail. cbn [flash_loop]. rewrite Hlt. reflexivity.
Qed.

(** From the test of the chunk loop on. *)
Lemma flash_tail_alone (fuel : nat) :
  forall (i : Z) (w : World),
    snd (try_catch (flash_tail host fuel fileData i) flash_rethrow w)
    <> OutOfFuel ->
    exists evs r,
      ended (try_catch (flash_tail host fuel fileData i) flash_rethrow w)
      = Some r
      /\ run_events host lockedMessage evs
           (alone fileData
              (loop_test lockedMessage 0 fileData i
                 {| world := w; writer := None |}))
         = alone fileData r.
Proof.
  induction fuel as [|fuel IH]; intros i w.
  - intros Hfuel. exfalso. apply Hfuel. reflexivity.
  - unfold loop_test.
    destruct (i <? Z.of_nat (List.length fileData)) eqn:Hlt.
    + rewrite flash_tail_chunk by exact Hlt.
      apply write_pause_alone. intros w2.
      rewrite try_catch_bind.
      change (chunk_done fileData i w2)
        with (fst (chunk_done fileData i w2), @Return unit tt).
      cbv iota. apply IH.
    + rewrite flash_tail_end by exact Hlt.
      apply write_pause_alone. intros w2 _.
      exists []. eexists. split; reflexivity.
Qed.

(** [flashFirmware] on an engine that holds a port, cut after its
    opening lines. *)
Lemma flashFirmware_cut (offset : option Z) (w : World) (port : SerialPort) :
  portRef w = Some port ->
  let len := Z.of_nat (List.length fileData) in
  let off := match offset with Some o => o | None => 0x10000 end in
  flashFirmware host fileData offset w =
  try_catch
    (bind (write host (flashBegin len off))
       (fun _ => bind (sleep (delay AtBegin))
          (fun _ => flash_tail host (S (List.length fileData)) fileData 0)))
    flash_rethrow (fst (flash_opening len off w)).
Proof.
  intros Hport len off. subst len off.
  unfold flashFirmware. rewrite Hport.
  rewrite bind_setState. rewrite !try_catch_addLog.
  rewrite try_catch_handler with (h' := flash_rethrow)
    by (intros e w1; reflexivity).
  reflexivity.
Qed.

(** A call of [flashFirmware] made on the idle engine and left alone
    until it ends is the call awaited to its end: the same world, the
    stream unlocked, and the same answer. *)
Lemma flashFirmware_alone (offset : option Z) (w : World) :
  exists evs r,
    ended (flashFirmware host fileData offset w) = Some r
    /\ run_events host lockedMessage (Calls fileData offset :: evs) (idle w)
       = alone fileData r.
Proof.
  pose proof (flashFirmware_terminates host fileData offset w) as Hfuel.
  cbn [run_events deliver idle shared jobs List.length app].
  unfold flash_called. cbn [world].
  destruct (portRef w) as [port|] eqn:Hport.
  - rewrite (flashFirmware_cut offset w port Hport) in *.
    change (in_world ?m {| world := w; writer := None |})
      with {| world := fst (m w); writer := None |}.
    apply write_pause_alone.
    + intros w2. apply flash_tail_alone.
    + exact Hfuel.
  - unfold flashFirmware. rewrite Hport.
    exists []. eexists. split; reflexivity.
Qed.

End Alone.








(** ** The scenarios of the specification, run on the model *)

(** An image of exactly 256 bytes at offset 0x10000: one DATA frame of 256
    bytes, and the job ends at [{256, 256, 100}]. *)
Example scenario_256_bytes :
  let r := flashFirmware reliableHost (repeat Byte.x41 256) (Some 0x10000)
             connectedWorld in
  snd r = Return tt
  /\ sent (fst r) =
     [flashBegin 256 0x10000; chunkData (repeat Byte.x41 256); flashEnd]
  /\ progress (state (fst r)) =
     {| current := 256; total := 256; percentage := Js.of_Z 100 |}.
Proof.
  repeat apply conj; vm_compute; reflexivity.
Qed.

(** An image of 300 bytes: two DATA frames, of 256 and of 44 bytes. *)
Example scenario_300_bytes :
  let r := flashFirmware reliableHost (repeat Byte.x41 300) None
             connectedWorld in
  snd r = Return tt
  /\ sent (fst r) =
     [flashBegin 300 0x10000; chunkData (repeat Byte.x41 256);
      chunkData (repeat Byte.x41 44); flashEnd]
  /\ map message (logs (state (fst r))) =
     ["Connected to device at 115200 baud"; "Starting firmware flash...";
      "File size: 300 bytes"; "Flash offset: 0x10000";
      "Flashed 256/300 bytes"; "Flashed 300/300 bytes";
      "Firmware flash completed successfully!"]%string.
Proof.
  repeat apply conj; vm_compute; reflexivity.
Qed.

(* ================================================================== *)
(** * The rest of the hook *)

(** ** What every call keeps *)

Lemma preserves_bind {A B : Type} (I : World -> Prop) (m : M A) (k : A -> M B) :
  preserves I m -> (forall a, preserves I (k a)) -> preserves I (bind m k).
Proof.
  intros Hm Hk w Hw. unfold bind. specialize (Hm w Hw).
  destruct (m w) as [w1 [a|e|]]; cbn [fst] in *; [apply Hk|..]; assumption.
Qed.

Lemma preserves_try_catch {A : Type} (I : World -> Prop) (body : M A)
      (handler : JsValue -> M A) :
  preserves I body -> (forall e, preserves I (handler e)) ->
  preserves I (try_catch body handler).
Proof.
  intros Hb Hh w Hw. unfold try_catch. specialize (Hb w Hw).
  destruct (body w) as [w1 [a|e|]]; cbn [fst] in *; [|apply Hh|]; assumption.
Qed.

Lemma preserves_ret {A : Type} (I : World -> Prop) (a : A) : preserves I (ret a).
Proof. intros w Hw. exact Hw. Qed.

Lemma preserves_throw {A : Type} (I : World -> Prop) (e : JsValue) :
  preserves I (@throw A e).
Proof. intros w Hw. exact Hw. Qed.

(** [I] is carried through [flashFirmware] once the pieces of the call
    carry it. *)
Lemma preserves_flashFirmware (I : World -> Prop) (host : Host)
      (fileData : list Byte.byte) (offset : option Z) :
  (forall f,
      (forall s, isConnected (f s) = isConnected s) ->
      (forall s, logs (f s) = logs s) ->
      (forall s, 0 <= current (progress s) <= total (progress s) ->
                 0 <= current (progress (f s)) <= total (progress (f s))) ->
      preserves I (setState f)) ->
  (forall message type, preserves I (addLog message type)) ->
  (forall data, preserves I (write host data)) ->
  (forall ms, preserves I (sleep ms)) ->
  preserves I (flashFirmware host fileData offset).
Proof.
  intros Hset Hlog Hwrite Hsleep.
  assert (Hchunk : forall i, 0 <= i -> preserves I (flash_chunk host fileData i)).
  { intros i Hi. unfold flash_chunk.
    apply preserves_bind; [apply Hwrite|intros _].
    apply preserves_bind; [apply Hsleep|intros _].
    apply preserves_bind; [|intros _; apply Hlog].
    apply Hset; intros s; cbn [isConnected logs progress current total];
      try reflexivity.
    intros _. unfold chunkSize. lia. }
  assert (Hloop : forall fuel i, 0 <= i ->
                    preserves I (flash_loop host fuel fileData i)).
  { induction fuel as [|fuel IH]; intros i Hi; cbn [flash_loop].
    - intros w Hw. exact Hw.
    - destruct (i <? Z.of_nat (List.length fileData)); [|apply preserves_ret].
      apply preserves_bind; [apply Hchunk; exact Hi|intros _].
      apply IH. unfold chunkSize. lia. }
  intros w Hw. unfold flashFirmware.
  destruct (portRef w) as [p|]; [|exact Hw].
  revert w Hw.
  match goal with
  | |- forall w, I w -> I (fst (?m w)) => change (preserves I m)
  end.
  apply preserves_bind;
    [apply Hset; intros s;
     cbn [isConnected logs progress current total]; try reflexivity; lia
    |intros _].
  apply preserves_try_catch.
  - repeat (apply preserves_bind; [|intros _]);
      try apply Hlog; try apply Hwrite; try apply Hsleep.
    + apply Hloop. lia.
    + apply Hset; intros s;
        cbn [isConnected logs progress current total]; try reflexivity; lia.
  - intros e.
    apply preserves_bind;
      [apply Hset; intros s;
       cbn [isConnected logs progress current total]; try reflexivity; tauto
      |intros _].
    apply preserves_bind; [apply Hlog|intros _; apply preserves_throw].
Qed.

Lemma kept_flashFirmware (host : Host) (w0 : World)
      (fileData : list Byte.byte) (offset : option Z) :
  preserves (kept w0) (flashFirmware host fileData offset).
Proof.
  apply preserves_flashFirmware.
  - intros f Hfc _ _ w (Hc & Hp & Hr). unfold kept, setState.
    cbn [fst state portRef readerRef]. rewrite Hfc. auto.
  - intros m t w Hw. exact Hw.
  - intros data w Hw. unfold write, throw.
    destruct (portRef w) as [p|] eqn:Ep; [destruct (writable p)|];
      try exact Hw.
    destruct (writer_write host (attempts w)); cbn [fst]; unfold kept in *;
      cbn [state portRef readerRef]; rewrite Ep in Hw; exact Hw.
  - intros ms w Hw. exact Hw.
Qed.

Lemma bounded_flashFirmware (host : Host)
      (fileData : list Byte.byte) (offset : option Z) :
  preserves bounded (flashFirmware host fileData offset).
Proof.
  apply preserves_flashFirmware.
  - intros f _ Hfl Hfp w (Hl & Hpr). unfold bounded, setState.
    cbn [fst state]. rewrite Hfl. split; [exact Hl|apply Hfp; exact Hpr].
  - intros m t w (_ & Hpr). unfold bounded. rewrite addLog_logs.
    split; [apply last100_length|exact Hpr].
  - intros data w Hw. unfold write, throw.
    destruct (portRef w) as [p|]; [destruct (writable p)|]; try exact Hw.
    destruct (writer_write host (attempts w)); exact Hw.
  - intros ms w Hw. exact Hw.
Qed.

(** X8: whatever the host answers and however the call ends,
    [flashFirmware] leaves [isConnected], [portRef] and [readerRef] as
    they were. *)
Theorem flashFirmware_keeps_connection
    (host : Host) (fileData : list Byte.byte) (offset : option Z) (w : World) :
  isConnected (state (fst (flashFirmware host fileData offset w)))
    = isConnected (state w)
  /\ portRef (fst (flashFirmware host fileData offset w)) = portRef w
  /\ readerRef (fst (flashFirmware host fileData offset w)) = readerRef w.
Proof.
  apply (kept_flashFirmware host w fileData offset w). unfold kept. auto.
Qed.

(** ** [connect], [disconnect] and [read] *)

Ltac run_fields :=
  cbn [state portRef readerRef clock sent attempts
       isConnected isFlashing progress logs error fst snd].

Lemma connect_run_resolves (host : Host) (baudRate : option Z) (w : World) :
  connect_rejection host (baudRate_or_default baudRate) = None ->
  connect host baudRate w =
  ({| state := {|
        isConnected := true;
        isFlashing := isFlashing (state w);
        progress := progress (state w);
        logs := last100
                  (logs (state w) ++
                   [{| message :=
                         ("Connected to device at "
                          ++ Js.toString (baudRate_or_default baudRate)
                          ++ " baud")%string;
                       type := LogType.success;
                       timestamp := clock w |}]);
        error := None |};
      portRef := Some openPort; readerRef := readerRef w; clock := clock w;
      sent := sent w; attempts := attempts w |}, Return tt).
Proof.
  unfold connect_rejection, baudRate_or_default, connect. intros H.
  destruct (navigator_serial host); [|discriminate].
  destruct (requestPort host) as [port|e1]; [|discriminate].
  unfold try_catch, bind, ret, set_portRef. cbv beta iota.
  rewrite H. unfold setState, addLog, setState. run_fields.
  rewrite slice_last100. reflexivity.
Qed.

Lemma connect_run_rejects (host : Host) (baudRate : option Z) (w : World)
      (e : JsValue) :
  connect_rejection host (baudRate_or_default baudRate) = Some e ->
  connect host baudRate w =
  ({| state := {|
        isConnected := isConnected (state w);
        isFlashing := isFlashing (state w);
        progress := progress (state w);
        logs := last100
                  (logs (state w) ++
                   [{| message := ("Connection failed: "
                                   ++ message_of e "Failed to connect")%string;
                       type := LogType.error;
                       timestamp := clock w |}]);
        error := Some (message_of e "Failed to connect") |};
      portRef := if navigator_serial host
                 then match requestPort host with
                      | PortGranted port => Some port
                      | PortRefused _ => portRef w
                      end
                 else portRef w;
      readerRef := readerRef w; clock := clock w;
      sent := sent w; attempts := attempts w |}, Throw e).
Proof.
  unfold connect_rejection, baudRate_or_default, connect. intros H.
  destruct (navigator_serial host).
  - destruct (requestPort host) as [port|e1].
    + unfold try_catch, bind, ret, set_portRef. cbv beta iota. rewrite H.
      unfold throw, setState, addLog, setState.
      run_fields. rewrite slice_last100. reflexivity.
    + injection H as <-.
      unfold try_catch, bind, ret, throw, setState, addLog, setState.
      run_fields. rewrite slice_last100. reflexivity.
  - injection H as <-.
    unfold try_catch, bind, ret, throw, setState, addLog, setState.
    run_fields. rewrite slice_last100. reflexivity.
Qed.

Lemma disconnect_run (host : Host) (w : World) :
  readerRef w = false \/ reader_cancel host = None ->
  disconnect host w =
  ({| state := {|
        isConnected := false;
        isFlashing := isFlashing (state w);
        progress := progress (state w);
        logs := last100
                  (logs (state w) ++
                   [{| message := "Disconnected from device";
                       type := LogType.info;
                       timestamp := clock w |}]);
        error := error (state w) |};
      portRef := match portRef w with
                 | Some p =>
                     if readable p
                     then match port_close host with
                          | None => Some closedPort
                          | Some _ => Some p
                          end
                     else Some p
                 | None => None
                 end;
      readerRef := false; clock := clock w;
      sent := sent w; attempts := attempts w |}, Return tt).
Proof.
  intros H. unfold disconnect.
  assert (Hfirst :
            (if readerRef w
             then match reader_cancel host with
                  | None => set_readerRef false w
                  | Some e => throw e w
                  end
             else ret tt w)
            = ({| state := state w; portRef := portRef w; readerRef := false;
                  clock := clock w; sent := sent w; attempts := attempts w |},
               Return tt)).
  { destruct (readerRef w) eqn:Er.
    - destruct H as [H|H]; [discriminate|]. rewrite H. reflexivity.
    - destruct w; cbn in *. subst. reflexivity. }
  unfold bind at 1. rewrite Hfirst.
  unfold bind at 1. cbn [portRef].
  destruct (portRef w) as [p|]; [destruct (readable p)|];
    [destruct (port_close host)|..];
    unfold ret, set_portRef, bind, setState, addLog, setState;
    run_fields; rewrite slice_last100; reflexivity.
Qed.

(** X10: when the browser has the Web Serial API, the user picks a port
    and the port opens, [connect] returns with [isConnected] true, [error]
    cleared, the open port in [portRef] and one success entry naming the
    baud rate, as a template literal prints that number, appended to the
    log; the flashing flag, the progress and the transport are
    untouched. *)
Theorem connect_success (host : Host) (baudRate : option Z) (w : World)
        (port : SerialPort) :
  navigator_serial host = true ->
  requestPort host = PortGranted port ->
  port_open host (baudRate_or_default baudRate) = None ->
  let r := connect host baudRate w in
  snd r = Return tt
  /\ isConnected (state (fst r)) = true
  /\ error (state (fst r)) = None
  /\ portRef (fst r) = Some openPort
  /\ logs (state (fst r)) =
     last100
       (logs (state w) ++
        [{| message := ("Connected to device at "
                        ++ Js.toString (baudRate_or_default baudRate)
                        ++ " baud")%string;
            type := LogType.success; timestamp := clock w |}])
  /\ isFlashing (state (fst r)) = isFlashing (state w)
  /\ progress (state (fst r)) = progress (state w)
  /\ sent (fst r) = sent w
  /\ attempts (fst r) = attempts w.
Proof.
  intros Hn Hq Ho r. subst r.
  rewrite connect_run_resolves
    by (unfold connect_rejection; now rewrite Hn, Hq).
  repeat apply conj; reflexivity.
Qed.

Lemma connect_success_witness :
  snd (connect reliableHost None initialWorld) = Return tt
  /\ isConnected (state (fst (connect reliableHost None initialWorld))) = true
  /\ map message (logs (state (fst (connect reliableHost None initialWorld))))
     = ["Connected to device at 115200 baud"%string]
  /\ map message
       (logs (state (fst (connect reliableHost (Some (10 ^ 21)) initialWorld))))
     = ["Connected to device at 1e+21 baud"%string].
Proof.
  destruct (connect_success reliableHost None initialWorld closedPort
              eq_refl eq_refl eq_refl)
    as (Hr & Hc & _ & _ & Hl & _).
  destruct (connect_success reliableHost (Some (10 ^ 21)) initialWorld
              closedPort eq_refl eq_refl eq_refl)
    as (_ & _ & _ & _ & Hl' & _).
  repeat apply conj; [exact Hr|exact Hc| |].
  - rewrite Hl. vm_compute. reflexivity.
  - rewrite Hl'. vm_compute. reflexivity.
Defined.

(** X11: when a step of [connect] fails with [e], [connect] rethrows [e],
    stores its message (or "Failed to connect") in [error], appends one
    error entry and leaves [isConnected] as it was; nothing is written.
    When it is the opening that failed, [portRef] already holds the port
    the host handed out, in the state it was handed out; otherwise
    [portRef] is untouched. *)
Theorem connect_failure (host : Host) (baudRate : option Z) (w : World)
        (e : JsValue) :
  connect_rejection host (baudRate_or_default baudRate) = Some e ->
  let r := connect host baudRate w in
  snd r = Throw e
  /\ isConnected (state (fst r)) = isConnected (state w)
  /\ error (state (fst r)) = Some (message_of e "Failed to connect")
  /\ logs (state (fst r)) =
     last100
       (logs (state w) ++
        [{| message := ("Connection failed: "
                        ++ message_of e "Failed to connect")%string;
            type := LogType.error; timestamp := clock w |}])
  /\ isFlashing (state (fst r)) = isFlashing (state w)
  /\ progress (state (fst r)) = progress (state w)
  /\ sent (fst r) = sent w
  /\ attempts (fst r) = attempts w
  /\ portRef (fst r) =
     (if navigator_serial host
      then match requestPort host with
           | PortGranted port => Some port
           | PortRefused _ => portRef w
           end
      else portRef w).
Proof.
  intros H r. subst r. rewrite (connect_run_rejects host baudRate w e H).
  repeat apply conj; reflexivity.
Qed.

Lemma connect_failure_witness :
  let host := {| navigator_serial := true;
                 requestPort := PortGranted openPort;
                 port_open := fun _ => Some (JsError "The port is already open.");
                 reader_cancel := None;
                 port_close := None; writer_write := fun _ => None |} in
  snd (connect host (Some 9600) connectedWorld)
  = Throw (JsError "The port is already open.")
  /\ isConnected (state (fst (connect host (Some 9600) connectedWorld))) = true
  /\ portRef (fst (connect host (Some 9600) connectedWorld)) = Some openPort.
Proof.
  intros host.
  destruct (connect_failure host (Some 9600) connectedWorld
              (JsError "The port is already open.") eq_refl)
    as (Hr & Hc & _ & _ & _ & _ & _ & _ & Hp).
  repeat apply conj; [exact Hr|rewrite Hc; reflexivity|rewrite Hp; reflexivity].
Defined.

(** X13: when no read cursor is held, or its [cancel] resolves,
    [disconnect] returns with [isConnected] false, the cursor released
    and one info entry appended. A readable port is closed; a rejected
    [close] is swallowed and leaves the port as it was. [portRef] is never
    cleared, and the flashing flag, progress, [error] and the transport
    are untouched. *)
Theorem disconnect_success (host : Host) (w : World) :
  readerRef w = false \/ reader_cancel host = None ->
  let r := disconnect host w in
  snd r = Return tt
  /\ isConnected (state (fst r)) = false
  /\ readerRef (fst r) = false
  /\ logs (state (fst r)) =
     last100
       (logs (state w) ++
        [{| message := "Disconnected from device";
            type := LogType.info; timestamp := clock w |}])
  /\ isFlashing (state (fst r)) = isFlashing (state w)
  /\ progress (state (fst r)) = progress (state w)
  /\ error (state (fst r)) = error (state w)
  /\ sent (fst r) = sent w
  /\ attempts (fst r) = attempts w
  /\ (portRef (fst r) = None <-> portRef w = None)
  /\ (forall p, portRef w = Some p -> readable p = true ->
                port_close host = None -> portRef (fst r) = Some closedPort)
  /\ (forall p, portRef w = Some p ->
                readable p = false \/ port_close host <> None ->
                portRef (fst r) = Some p).
Proof.
  intros H r. subst r. rewrite (disconnect_run host w H). run_fields.
  repeat apply conj; try reflexivity.
  - intros Hx. destruct (portRef w) as [p|]; [|reflexivity].
    destruct (readable p); [destruct (port_close host)|]; discriminate Hx.
  - intros Hx. rewrite Hx. reflexivity.
  - intros p Hp Hr Hc. now rewrite Hp, Hr, Hc.
  - intros p Hp [Hr|Hc]; rewrite Hp.
    + now rewrite Hr.
    + destruct (readable p); [|reflexivity].
      destruct (port_close host); [reflexivity|congruence].
Qed.

Lemma disconnect_success_witness :
  snd (disconnect reliableHost connectedWorld) = Return tt
  /\ isConnected (state (fst (disconnect reliableHost connectedWorld))) = false
  /\ portRef (fst (disconnect reliableHost connectedWorld)) = Some closedPort.
Proof.
  destruct (disconnect_success reliableHost connectedWorld (or_introl eq_refl))
    as (Hr & Hc & _ & _ & _ & _ & _ & _ & _ & _ & Hclose & _).
  repeat apply conj; [exact Hr|exact Hc|].
  apply (Hclose openPort); reflexivity.
Defined.

(** X14: when a read cursor is held and its [cancel] rejects with [e],
    [disconnect] throws [e] and changes nothing: the port is not closed,
    [isConnected] stays as it was and nothing is logged. *)
Theorem disconnect_cancel_rejected (host : Host) (w : World) (e : JsValue) :
  readerRef w = true ->
  reader_cancel host = Some e ->
  disconnect host w = (w, Throw e).
Proof.
  intros Hr Hc. unfold disconnect, bind. rewrite Hr, Hc. reflexivity.
Qed.

Lemma disconnect_cancel_rejected_witness :
  let host := {| navigator_serial := true;
                 requestPort := PortGranted closedPort;
                 port_open := fun _ => None;
                 reader_cancel := Some (JsError "locked");
                 port_close := None; writer_write := fun _ => None |} in
  let w := fst (read (ReadResolves None) None connectedWorld) in
  disconnect host w = (w, Throw (JsError "locked"))
  /\ isConnected (state w) = true.
Proof.
  intros host w. split; [|reflexivity].
  apply (disconnect_cancel_rejected host w (JsError "locked"));
    reflexivity.
Defined.

(** X15: [read] on a missing or unreadable port throws "Port not readable"
    and changes nothing. On a readable port it takes the read cursor if
    none is held and keeps it whatever the answer; a resolved read gives
    the bytes, or no bytes when the stream is done; every rejection is
    replaced by the one error "Read timeout or error". *)
Theorem read_outcomes (answer : ReadAnswer) (timeout : option Z) (w : World) :
  (match portRef w with Some p => readable p | None => false end = false ->
   read answer timeout w = (w, Throw (JsError "Port not readable")))
  /\ (match portRef w with Some p => readable p | None => false end = true ->
      read answer timeout w =
      ({| state := state w; portRef := portRef w; readerRef := true;
          clock := clock w; sent := sent w; attempts := attempts w |},
       match answer with
       | ReadResolves (Some v) => Return v
       | ReadResolves None => Return []
       | ReadRejects _ => Throw (JsError "Read timeout or error")
       end)).
Proof.
  split; intros H; unfold read; rewrite H; [reflexivity|].
  unfold bind, try_catch.
  destruct (readerRef w) eqn:Er; destruct answer as [[v|]|e];
    cbn; try reflexivity;
    destruct w; cbn in *; subst; reflexivity.
Qed.

Lemma read_outcomes_witness :
  read (ReadRejects JsOther) None initialWorld
  = (initialWorld, Throw (JsError "Port not readable"))
  /\ snd (read (ReadRejects JsOther) (Some 50) connectedWorld)
     = Throw (JsError "Read timeout or error")
  /\ readerRef (fst (read (ReadRejects JsOther) (Some 50) connectedWorld))
     = true.
Proof.
  destruct (read_outcomes (ReadRejects JsOther) None initialWorld) as [H0 _].
  destruct (read_outcomes (ReadRejects JsOther) (Some 50) connectedWorld)
    as [_ H1].
  repeat apply conj.
  - apply H0. reflexivity.
  - rewrite H1 by reflexivity. reflexivity.
  - rewrite H1 by reflexivity. reflexivity.
Defined.

(** X6: [handleConnect] never throws: it ends as [connect] ends, with
    the failure, if any, only left in [error] and in the log. *)
Theorem handleConnect_never_throws (host : Host) (baudRate : Z) (w : World) :
  handleConnect host baudRate w
  = (fst (connect host (Some baudRate) w), Return tt)
  /\ (forall e, snd (connect host (Some baudRate) w) = Throw e ->
        error (state (fst (handleConnect host baudRate w)))
        = Some (message_of e "Failed to connect")).
Proof.
  unfold handleConnect, try_catch.
  destruct (connect_rejection host (baudRate_or_default (Some baudRate)))
    as [e|] eqn:E.
  - rewrite (connect_run_rejects host (Some baudRate) w e E).
    split; [reflexivity|]. intros e' He. cbn [snd] in He.
    injection He as <-. reflexivity.
  - rewrite (connect_run_resolves host (Some baudRate) w E).
    split; [reflexivity|]. intros e' He. discriminate.
Qed.

Lemma handleConnect_never_throws_witness :
  let host := {| navigator_serial := true;
                 requestPort :=
                   PortRefused (JsError "No port selected by the user.");
                 port_open := fun _ => None; reader_cancel := None;
                 port_close := None; writer_write := fun _ => None |} in
  snd (handleConnect host 115200 initialWorld) = Return tt
  /\ error (state (fst (handleConnect host 115200 initialWorld)))
     = Some "No port selected by the user."%string.
Proof.
  intros host.
  destruct (handleConnect_never_throws host 115200 initialWorld) as [Hrun Herr].
  split; [rewrite Hrun; reflexivity|].
  apply (Herr (JsError "No port selected by the user.")). reflexivity.
Defined.

(** ** Chunks *)

Lemma firstn_min_length {A : Type} (n : nat) (l : list A) :
  firstn (Nat.min n (List.length l)) l = firstn n l.
Proof.
  destruct (Nat.le_gt_cases n (List.length l)) as [H|H].
  - now rewrite Nat.min_l.
  - rewrite Nat.min_r by lia. rewrite firstn_all.
    symmetry. apply firstn_all2. lia.
Qed.

Lemma chunk_at_firstn_skipn (fileData : list Byte.byte) (j : nat) :
  chunk_at fileData j = firstn 256 (skipn (256 * j) fileData).
Proof.
  unfold chunk_at, Js.slice, chunkSize. cbv zeta.
  set (len := Z.of_nat (List.length fileData)).
  assert (H0 : (256 * Z.of_nat j <? 0) = false) by (apply Z.ltb_ge; lia).
  assert (H1 : (Z.min (256 * Z.of_nat j + 256) len <? 0) = false)
    by (apply Z.ltb_ge; lia).
  rewrite H0, H1.
  destruct (Z.le_gt_cases (256 * Z.of_nat j) len) as [Hle|Hgt].
  - rewrite (Z.min_l (256 * Z.of_nat j) len) by lia.
    replace (Z.to_nat (256 * Z.of_nat j)) with (256 * j)%nat by lia.
    rewrite <- (firstn_min_length 256). rewrite length_skipn.
    f_equal. lia.
  - rewrite (Z.min_r (256 * Z.of_nat j) len) by lia.
    rewrite !skipn_all2 by lia. now rewrite !firstn_nil.
Qed.

Lemma chunkCount_covers (fileData : list Byte.byte) :
  Z.of_nat (List.length fileData) <= chunkSize * Z.of_nat (chunkCount fileData).
Proof.
  unfold chunkCount, chunkSize.
  set (len := Z.of_nat (List.length fileData)).
  pose proof (Z.div_mod (len + (256 - 1)) 256 ltac:(lia)).
  pose proof (Z.mod_pos_bound (len + (256 - 1)) 256 ltac:(lia)).
  assert (0 <= (len + (256 - 1)) / 256) by (apply Z.div_pos; lia).
  lia.
Qed.

Lemma chunkCount_tight (fileData : list Byte.byte) :
  (0 < chunkCount fileData)%nat ->
  chunkSize * Z.of_nat (chunkCount fileData - 1)
  < Z.of_nat (List.length fileData).
Proof.
  unfold chunkCount, chunkSize.
  set (len := Z.of_nat (List.length fileData)).
  pose proof (Z.div_mod (len + (256 - 1)) 256 ltac:(lia)).
  pose proof (Z.mod_pos_bound (len + (256 - 1)) 256 ltac:(lia)).
  assert (0 <= (len + (256 - 1)) / 256) by (apply Z.div_pos; lia).
  lia.
Qed.

Lemma concat_chunks (n : nat) :
  forall l : list Byte.byte,
    (List.length l <= 256 * n)%nat ->
    List.concat (map (fun j => firstn 256 (skipn (256 * j) l)) (seq 0 n)) = l.
Proof.
  induction n as [|n IH]; intros l Hl.
  - destruct l; [reflexivity|simpl in Hl; lia].
  - cbn [seq map List.concat]. rewrite <- seq_shift, map_map.
    replace (256 * 0)%nat with 0%nat by lia. cbn [skipn].
    rewrite (map_ext _ (fun j => firstn 256 (skipn (256 * j) (skipn 256 l)))).
    + rewrite IH by (rewrite length_skipn; lia). apply firstn_skipn.
    + intros j. rewrite skipn_skipn. do 2 f_equal. lia.
Qed.

(** X2: the chunks the loop cuts, put end to end, are the image; every
    chunk holds between 1 and 256 bytes, and every chunk but the last
    holds exactly 256. *)
Theorem chunks_partition_image (fileData : list Byte.byte) :
  List.concat (map (chunk_at fileData) (seq 0 (chunkCount fileData))) = fileData
  /\ Forall (fun c => (1 <= List.length c <= 256)%nat)
            (map (chunk_at fileData) (seq 0 (chunkCount fileData)))
  /\ (forall j, (j + 1 < chunkCount fileData)%nat ->
                List.length (chunk_at fileData j) = 256%nat).
Proof.
  pose proof (chunkCount_covers fileData) as Hc. unfold chunkSize in Hc.
  repeat apply conj.
  - rewrite (map_ext _ (fun j => firstn 256 (skipn (256 * j) fileData)))
      by (intros j; apply chunk_at_firstn_skipn).
    apply concat_chunks. lia.
  - apply Forall_forall. intros c Hin. apply in_map_iff in Hin.
    destruct Hin as (j & <- & Hj). apply in_seq in Hj.
    rewrite chunk_at_firstn_skipn, length_firstn, length_skipn.
    pose proof (chunkCount_tight fileData ltac:(lia)) as Ht.
    unfold chunkSize in Ht. lia.
  - intros j Hj.
    rewrite chunk_at_firstn_skipn, length_firstn, length_skipn.
    pose proof (chunkCount_tight fileData ltac:(lia)) as Ht.
    unfold chunkSize in Ht. lia.
Qed.

(** ** First rejection *)

Lemma first_rejection (host : Host) (a n : nat) :
  accepts host a n
  \/ exists k e, (k < n)%nat /\ accepts host a k
                 /\ writer_write host (a + k) = Some e.
Proof.
  induction n as [|n IH].
  - left. intros m Hm. lia.
  - destruct IH as [Hacc|(k & e & Hk & Hacc & He)].
    + destruct (writer_write host (a + n)) as [e|] eqn:E.
      * right. exists n, e. repeat split; [lia|exact Hacc|exact E].
      * left. intros m Hm. destruct (Nat.eq_dec m n) as [->|Hne];
          [exact E|apply Hacc; lia].
    + right. exists k, e. repeat split; [lia|exact Hacc|exact He].
Qed.

(** ** Complete jobs and jobs cut short *)

(** X1: when the transport accepts every frame, [flashFirmware] returns
    after sending the BEGIN frame, the DATA frame of each chunk in order
    and the END frame; it ends with [isFlashing] false, [error] cleared
    and progress [{len, len, 100}], and has appended only the three
    opening info lines, one info line per chunk and one success entry. *)
Theorem flashFirmware_completes
    (host : Host) (fileData : list Byte.byte) (offset : option Z) (w : World) :
  port_writable w ->
  accepts host (attempts w) (chunkCount fileData + 2) ->
  let len := Z.of_nat (List.length fileData) in
  let off := match offset with Some o => o | None => 0x10000 end in
  exists w' infos,
    flashFirmware host fileData offset w = (w', Return tt)
    /\ sent w' = sent w ++ frames fileData off
    /\ attempts w' = (attempts w + chunkCount fileData + 2)%nat
    /\ isConnected (state w') = isConnected (state w)
    /\ isFlashing (state w') = false
    /\ error (state w') = None
    /\ progress (state w') =
       {| current := len; total := len; percentage := Js.of_Z 100 |}
    /\ logs (state w') =
       last100 (logs (state w) ++ startLogs len off (clock w) ++ infos ++
                [{| message := "Firmware flash completed successfully!";
                    type := LogType.success; timestamp := clock w' |}])
    /\ List.length infos = chunkCount fileData
    /\ Forall (fun x => type x = LogType.info) infos.
Proof.
  intros Hp Hacc len off.
  set (n := chunkCount fileData) in *.
  pose proof (chunkCount_covers fileData) as Hend.
  pose proof (chunkCount_tight fileData) as Hlast. fold n in Hend, Hlast.
  pose proof Hp as (p & Hport & Hwr).
  flash_start Hport.
  assert (Hbegin : writer_write host (attempts w) = None).
  { specialize (Hacc 0%nat). rewrite Nat.add_0_r in Hacc. apply Hacc. lia. }
  unfold bind at 1.
  rewrite write_ok; [|exists p; split; assumption|exact Hbegin].
  run_projections.
  unfold bind at 1, sleep at 1. run_projections.
  match goal with
  | |- context [bind (flash_loop _ _ _ _) _ ?w1] => set (w1' := w1)
  end.
  destruct (flash_loop_succeeds host fileData n (S (List.length fileData))
              0 w1')
    as (w2 & infos & Hrun & Hs & Ha & Hpo & Hc & _ & He & Hl & Hn & Hall & _).
  { destruct n as [|n']; [lia|]. specialize (Hlast ltac:(lia)).
    unfold chunkSize in Hlast. lia. }
  { exists p. split; assumption. }
  { intros m Hm. subst w1'. cbn [attempts].
    replace (S (attempts w) + m)%nat with (attempts w + S m)%nat by lia.
    apply Hacc. lia. }
  { exact Hend. }
  { exact Hlast. }
  unfold bind at 1. change (chunkSize * Z.of_nat 0) with 0 in Hrun.
  rewrite Hrun.
  subst w1'.
  cbn [state sent attempts portRef isConnected error logs] in Hs, Ha, Hpo, Hc, He, Hl.
  unfold bind at 1.
  rewrite write_ok;
    [| exists p; split; [congruence | assumption]
     | rewrite Ha;
       replace (S (attempts w) + n)%nat with (attempts w + S n)%nat by lia;
       apply Hacc; lia].
  unfold bind at 1, sleep at 1. run_projections.
  unfold bind at 1, setState at 1. run_projections.
  unfold addLog, setState. run_projections. rewrite slice_last100.
  eexists. exists infos. split; [reflexivity|]. run_projections.
  repeat apply conj; try reflexivity; try assumption.
  - rewrite Hs. unfold frames. fold n. fold len. fold off.
    rewrite <- !app_assoc. reflexivity.
  - lia.
  - rewrite Hl. fold len off.
    change (last100 (last100 (last100 (logs (state w) ++ [?a]) ++ [?b]) ++ [?c]))
      with (appendLogs (logs (state w)) (startLogs len off (clock w))).
    change (last100 (?l ++ [?x])) with (appendLogs l [x]).
    rewrite <- !appendLogs_app.
    rewrite appendLogs_last100
      by (intros Hnil; apply (f_equal (@List.length _)) in Hnil;
          rewrite !length_app in Hnil; cbn in Hnil; lia).
    rewrite <- ?app_assoc. reflexivity.
Qed.

Lemma flashFirmware_completes_witness :
  exists w' (infos : list LogEntry),
    flashFirmware reliableHost (repeat Byte.x41 300) None connectedWorld
    = (w', Return tt)
    /\ sent w' = frames (repeat Byte.x41 300) 0x10000
    /\ List.length (sent w') = 4%nat
    /\ List.length infos = 2%nat.
Proof.
  destruct (flashFirmware_completes reliableHost (repeat Byte.x41 300) None
              connectedWorld)
    as (w' & infos & Hrun & Hs & _ & _ & _ & _ & _ & _ & Hn & _).
  - exists openPort. split; reflexivity.
  - intros m _. reflexivity.
  - exists w', infos. repeat apply conj; try assumption.
    rewrite Hs. reflexivity.
Defined.

Lemma chunks_partition_image_witness :
  List.concat (map (chunk_at (repeat Byte.x41 300)) (seq 0 2))
  = repeat Byte.x41 300
  /\ List.length (chunk_at (repeat Byte.x41 300) 0) = 256%nat.
Proof.
  destruct (chunks_partition_image (repeat Byte.x41 300)) as (Hc & _ & Hfull).
  split; [exact Hc|]. apply Hfull. vm_compute. lia.
Defined.

Lemma flashFirmware_begin_failure_run
    (host : Host) (fileData : list Byte.byte) (offset : option Z)
    (w : World) (e : JsValue) :
  port_writable w ->
  writer_write host (attempts w) = Some e ->
  let len := Z.of_nat (List.length fileData) in
  let off := match offset with Some o => o | None => 0x10000 end in
  flashFirmware host fileData offset w =
  ({| state := {|
        isConnected := isConnected (state w);
        isFlashing := false;
        progress := {| current := 0; total := len; percentage := Js.of_Z 0 |};
        logs := appendLogs (logs (state w))
                  (startLogs len off (clock w) ++ [errorLog e (clock w)]);
        error := Some (message_of e "Flash failed") |};
      portRef := portRef w; readerRef := readerRef w; clock := clock w;
      sent := sent w; attempts := S (attempts w) |},
   Throw e).
Proof.
  intros Hp Hfail len off.
  pose proof Hp as (p & Hport & Hwr).
  flash_start Hport.
  unfold bind at 1.
  rewrite (write_fail host _ _ e); [|exists p; split; assumption|exact Hfail].
  unfold bind, setState, addLog, setState, throw. run_projections.
  rewrite slice_last100, Hport. reflexivity.
Qed.

Lemma flashFirmware_end_failure_run
    (host : Host) (fileData : list Byte.byte) (offset : option Z)
    (w : World) (e : JsValue) :
  port_writable w ->
  accepts host (attempts w) (chunkCount fileData + 1) ->
  writer_write host (attempts w + (chunkCount fileData + 1)) = Some e ->
  let len := Z.of_nat (List.length fileData) in
  let off := match offset with Some o => o | None => 0x10000 end in
  exists w',
    flashFirmware host fileData offset w = (w', Throw e)
    /\ sent w' =
       sent w ++ flashBegin len off
       :: map (fun j => chunkData (chunk_at fileData j))
              (seq 0 (chunkCount fileData))
    /\ attempts w' = (attempts w + chunkCount fileData + 2)%nat
    /\ isFlashing (state w') = false
    /\ error (state w') = Some (message_of e "Flash failed")
    /\ current (progress (state w')) = len
    /\ total (progress (state w')) = len.
Proof.
  intros Hp Hacc Hfail len off.
  set (n := chunkCount fileData) in *.
  pose proof (chunkCount_covers fileData) as Hend.
  pose proof (chunkCount_tight fileData) as Hlast. fold n in Hend, Hlast.
  pose proof Hp as (p & Hport & Hwr).
  flash_start Hport.
  assert (Hbegin : writer_write host (attempts w) = None).
  { specialize (Hacc 0%nat). rewrite Nat.add_0_r in Hacc. apply Hacc. lia. }
  unfold bind at 1.
  rewrite write_ok; [|exists p; split; assumption|exact Hbegin].
  run_projections.
  unfold bind at 1, sleep at 1. run_projections.
  match goal with
  | |- context [bind (flash_loop _ _ _ _) _ ?w1] => set (w1' := w1)
  end.
  destruct (flash_loop_succeeds host fileData n (S (List.length fileData))
              0 w1')
    as (w2 & infos & Hrun & Hs & Ha & Hpo & _ & _ & _ & _ & _ & _ & Hpr).
  { destruct n as [|n']; [lia|]. specialize (Hlast ltac:(lia)).
    unfold chunkSize in Hlast. lia. }
  { exists p. split; assumption. }
  { intros m Hm. subst w1'. cbn [attempts].
    replace (S (attempts w) + m)%nat with (attempts w + S m)%nat by lia.
    apply Hacc. lia. }
  { exact Hend. }
  { exact Hlast. }
  unfold bind at 1. change (chunkSize * Z.of_nat 0) with 0 in Hrun.
  rewrite Hrun.
  subst w1'. cbn [state sent attempts portRef progress] in Hs, Ha, Hpo, Hpr.
  unfold bind at 1.
  rewrite (write_fail host _ _ e);
    [| exists p; split; [congruence | assumption]
     | rewrite Ha;
       replace (S (attempts w) + n)%nat with (attempts w + (n + 1))%nat by lia;
       exact Hfail].
  unfold bind, setState, addLog, setState, throw. run_projections.
  eexists. split; [reflexivity|]. run_projections.
  assert (Hcur : current (progress (state w2)) = len
                 /\ total (progress (state w2)) = len).
  { rewrite Hpr. destruct n as [|n'] eqn:En.
    - cbn [current total]. unfold chunkSize in Hend. subst len. lia.
    - unfold chunk_progress. cbn [current total]. fold len.
      specialize (Hlast ltac:(lia)). unfold chunkSize in *.
      split; [lia|reflexivity]. }
  repeat apply conj; try reflexivity; try apply Hcur.
  - rewrite Hs, <- app_assoc. reflexivity.
  - lia.
Qed.

(** X4: when the transport rejects the BEGIN frame with [e], the call
    throws [e] after that single write: nothing is sent and no DATA frame
    is tried. It ends with [isFlashing] false, the message in [error], the
    progress at [{0, len, 0}] whatever an earlier job had left, and the
    three opening lines and one error entry appended. *)
Theorem flashFirmware_begin_rejected
    (host : Host) (fileData : list Byte.byte) (offset : option Z)
    (w : World) (e : JsValue) :
  port_writable w ->
  writer_write host (attempts w) = Some e ->
  let len := Z.of_nat (List.length fileData) in
  let off := match offset with Some o => o | None => 0x10000 end in
  let r := flashFirmware host fileData offset w in
  snd r = Throw e
  /\ sent (fst r) = sent w
  /\ attempts (fst r) = S (attempts w)
  /\ isFlashing (state (fst r)) = false
  /\ error (state (fst r)) = Some (message_of e "Flash failed")
  /\ progress (state (fst r)) =
     {| current := 0; total := len; percentage := Js.of_Z 0 |}
  /\ logs (state (fst r)) =
     last100 (logs (state w) ++ startLogs len off (clock w)
              ++ [errorLog e (clock w)]).
Proof.
  intros Hp Hfail len off r. subst r.
  rewrite (flashFirmware_begin_failure_run host fileData offset w e Hp Hfail).
  run_projections.
  repeat apply conj; try reflexivity.
  apply appendLogs_last100. cbn. discriminate.
Qed.

Lemma flashFirmware_begin_rejected_witness :
  let w := fst (flashFirmware reliableHost (repeat Byte.x41 300) None
                  connectedWorld) in
  let r := flashFirmware (failingHost 4 "unplugged") [Byte.x42] None w in
  snd r = Throw (JsError "unplugged")
  /\ sent (fst r) = sent w
  /\ progress (state w) =
     {| current := 300; total := 300; percentage := Js.of_Z 100 |}
  /\ progress (state (fst r)) =
     {| current := 0; total := 1; percentage := Js.of_Z 0 |}.
Proof.
  intros w r.
  destruct (flashFirmware_begin_rejected (failingHost 4 "unplugged")
              [Byte.x42] None w (JsError "unplugged"))
    as (Hr & Hs & _ & _ & _ & Hpr & _).
  - exists openPort. split; reflexivity.
  - reflexivity.
  - repeat apply conj; [exact Hr|exact Hs|reflexivity|exact Hpr].
Defined.

(** X5: when the transport accepts the BEGIN frame and every DATA frame
    and rejects the END frame with [e], the call throws [e] although the
    whole image was sent: every frame but the last is on the wire,
    [current] and [total] are the image length, [isFlashing] is false
    and the message is in [error]. *)
Theorem flashFirmware_end_rejected
    (host : Host) (fileData : list Byte.byte) (offset : option Z)
    (w : World) (e : JsValue) :
  port_writable w ->
  accepts host (attempts w) (chunkCount fileData + 1) ->
  writer_write host (attempts w + (chunkCount fileData + 1)) = Some e ->
  let len := Z.of_nat (List.length fileData) in
  let off := match offset with Some o => o | None => 0x10000 end in
  let r := flashFirmware host fileData offset w in
  snd r = Throw e
  /\ sent (fst r) = sent w ++ removelast (frames fileData off)
  /\ attempts (fst r) = (attempts w + chunkCount fileData + 2)%nat
  /\ isFlashing (state (fst r)) = false
  /\ error (state (fst r)) = Some (message_of e "Flash failed")
  /\ current (progress (state (fst r))) = len
  /\ total (progress (state (fst r))) = len.
Proof.
  intros Hp Hacc Hfail len off r. subst r.
  destruct (flashFirmware_end_failure_run host fileData offset w e
              Hp Hacc Hfail)
    as (w' & Hrun & Hs & Ha & Hf & He & Hc & Ht).
  rewrite Hrun. cbn [fst snd].
  repeat apply conj; try reflexivity; try assumption.
  rewrite Hs. unfold frames. rewrite app_comm_cons, removelast_last.
  reflexivity.
Qed.

Lemma flashFirmware_end_rejected_witness :
  let r := flashFirmware (failingHost 3 "unplugged") (repeat Byte.x41 300)
             None connectedWorld in
  snd r = Throw (JsError "unplugged")
  /\ List.length (sent (fst r)) = 3%nat
  /\ current (progress (state (fst r))) = 300
  /\ isFlashing (state (fst r)) = false.
Proof.
  intros r.
  destruct (flashFirmware_end_rejected (failingHost 3 "unplugged")
              (repeat Byte.x41 300) None connectedWorld (JsError "unplugged"))
    as (Hr & Hs & _ & Hf & _ & Hc & _).
  - exists openPort. split; reflexivity.
  - intros m Hm. change (chunkCount (repeat Byte.x41 300)) with 2%nat in Hm.
    destruct m as [|[|[|m]]]; [reflexivity..|lia].
  - reflexivity.
  - repeat apply conj; [exact Hr| |exact Hc|exact Hf].
    fold r in Hs. rewrite Hs. reflexivity.
Defined.

Lemma firstn_seq_min (k : nat) :
  forall start n, firstn k (seq start n) = seq start (Nat.min k n).
Proof.
  induction k as [|k IH]; intros start n; [reflexivity|].
  destruct n as [|n]; [reflexivity|].
  cbn [seq firstn Nat.min]. now rewrite IH.
Qed.

Lemma firstn_frames (fileData : list Byte.byte) (offset : Z) (k : nat) :
  (1 <= k <= chunkCount fileData + 1)%nat ->
  firstn k (frames fileData offset) =
  flashBegin (Z.of_nat (List.length fileData)) offset
  :: map (fun j => chunkData (chunk_at fileData j)) (seq 0 (k - 1)).
Proof.
  intros Hk. unfold frames. destruct k as [|k]; [lia|]. cbn [firstn].
  f_equal. replace (S k - 1)%nat with k by lia.
  rewrite firstn_app, length_map, length_seq.
  replace (k - chunkCount fileData)%nat with 0%nat by lia.
  cbn [firstn]. rewrite app_nil_r, firstn_map, firstn_seq_min.
  now rewrite Nat.min_l by lia.
Qed.

Lemma frames_length (fileData : list Byte.byte) (offset : Z) :
  List.length (frames fileData offset) = (chunkCount fileData + 2)%nat.
Proof.
  unfold frames. cbn [List.length].
  rewrite length_app, length_map, length_seq. cbn. lia.
Qed.

(** Every run on a writable port: the transport accepts all the frames,
    or there is a first frame it rejects. *)
Lemma flashFirmware_run_cases
    (host : Host) (fileData : list Byte.byte) (offset : option Z) (w : World) :
  port_writable w ->
  let off := match offset with Some o => o | None => 0x10000 end in
  (exists w',
      accepts host (attempts w) (chunkCount fileData + 2)
      /\ flashFirmware host fileData offset w = (w', Return tt)
      /\ sent w' = sent w ++ frames fileData off
      /\ attempts w' = (attempts w + (chunkCount fileData + 2))%nat
      /\ isFlashing (state w') = false
      /\ error (state w') = None)
  \/ (exists k e w',
         (k < chunkCount fileData + 2)%nat
         /\ accepts host (attempts w) k
         /\ writer_write host (attempts w + k) = Some e
         /\ flashFirmware host fileData offset w = (w', Throw e)
         /\ sent w' = sent w ++ firstn k (frames fileData off)
         /\ attempts w' = (attempts w + k + 1)%nat
         /\ isFlashing (state w') = false
         /\ error (state w') = Some (message_of e "Flash failed")).
Proof.
  intros Hp off.
  remember (chunkCount fileData) as n eqn:En.
  pose proof (chunkCount_covers fileData) as Hcov.
  pose proof (chunkCount_tight fileData) as Htight.
  rewrite <- En in Hcov, Htight.
  destruct (first_rejection host (attempts w) (n + 2))
    as [Hall|(k & e & Hk & Hacc & He)].
  - left.
    destruct (flashFirmware_succeeds host fileData offset w n Hp
                Hcov Htight Hall)
      as (w' & Hrun & Hs & Ha & _ & Hf & Herr & _).
    exists w'. unfold frames. rewrite <- En.
    repeat apply conj; try assumption; try lia.
  - right. exists k, e.
    destruct (Nat.eq_dec k 0) as [->|Hk0];
      [|destruct (Nat.eq_dec k (n + 1)) as [->|Hkn]].
    + rewrite Nat.add_0_r in He.
      eexists. split; [lia|]. split; [exact Hacc|].
      split; [rewrite Nat.add_0_r; exact He|].
      split;
        [apply (flashFirmware_begin_failure_run host fileData offset w e Hp He)|].
      run_projections. cbn [firstn]. rewrite app_nil_r.
      repeat apply conj; try reflexivity. lia.
    + rewrite En in Hacc, He.
      destruct (flashFirmware_end_failure_run host fileData offset w e
                  Hp Hacc He)
        as (w' & Hrun & Hs & Ha & Hf & Herr & _).
      rewrite <- En in Hacc, He, Ha, Hs.
      exists w'. repeat apply conj; try assumption; try lia.
      rewrite Hs, firstn_frames by (rewrite <- En; lia).
      replace (n + 1 - 1)%nat with n by lia. reflexivity.
    + destruct (flashFirmware_data_failure_run host fileData offset w k e Hp)
        as (w' & infos & err & Hrun & Hs & Ha & Hf & Herr & _);
        try assumption; try lia.
      { specialize (Htight ltac:(lia)). unfold chunkSize in *. lia. }
      exists w'. repeat apply conj; try assumption; try lia.
      rewrite Hs, firstn_frames by (rewrite <- En; lia). reflexivity.
Qed.

(** X3: on a writable port, whatever the transport answers, the frames on
    the wire after the call are the first [k] frames of the job in order,
    where [k] is the index of the first frame the transport rejects, or
    all of them; no frame is skipped or sent after a rejection. The call
    returns exactly when every frame was accepted, throws the rejection
    otherwise, and ends with [isFlashing] false either way. *)
Theorem flashFirmware_sends_in_order
    (host : Host) (fileData : list Byte.byte) (offset : option Z) (w : World) :
  port_writable w ->
  let off := match offset with Some o => o | None => 0x10000 end in
  let r := flashFirmware host fileData offset w in
  exists k,
    (k <= chunkCount fileData + 2)%nat
    /\ accepts host (attempts w) k
    /\ sent (fst r) = sent w ++ firstn k (frames fileData off)
    /\ isFlashing (state (fst r)) = false
    /\ (snd r = Return tt <-> k = (chunkCount fileData + 2)%nat)
    /\ ((k < chunkCount fileData + 2)%nat ->
        exists e, writer_write host (attempts w + k) = Some e
                  /\ snd r = Throw e
                  /\ attempts (fst r) = (attempts w + k + 1)%nat).
Proof.
  intros Hp off r. subst r.
  destruct (flashFirmware_run_cases host fileData offset w Hp)
    as [(w' & Hacc & Hrun & Hs & Ha & Hf & _)
       |(k & e & w' & Hk & Hacc & He & Hrun & Hs & Ha & Hf & _)];
    rewrite Hrun; cbn [fst snd].
  - exists (chunkCount fileData + 2)%nat.
    repeat apply conj; try assumption; try reflexivity; try lia.
    + rewrite Hs. f_equal. symmetry. apply firstn_all2.
      rewrite frames_length. lia.
  - exists k.
    repeat apply conj; try assumption; try lia.
    + discriminate.
    + intros _. exists e. repeat apply conj; try reflexivity; assumption.
Qed.

Lemma flashFirmware_sends_in_order_witness :
  exists k,
    (k <= 4)%nat
    /\ sent (fst (flashFirmware (failingHost 2 "unplugged")
                    (repeat Byte.x41 300) None connectedWorld))
       = firstn k (frames (repeat Byte.x41 300) 0x10000)
    /\ isFlashing (state (fst (flashFirmware (failingHost 2 "unplugged")
                                 (repeat Byte.x41 300) None connectedWorld)))
       = false.
Proof.
  destruct (flashFirmware_sends_in_order (failingHost 2 "unplugged")
              (repeat Byte.x41 300) None connectedWorld)
    as (k & Hk & _ & Hs & Hf & _).
  - exists openPort. split; reflexivity.
  - exists k. repeat apply conj; [exact Hk|exact Hs|exact Hf].
Defined.

(** X7: on a held port whose write side is missing (a closed port),
    [flashFirmware] throws "Port not writable" before the transport is
    touched: no [writer.write] call is made. The job had started all the
    same: progress is reset to [{0, len, 0}], the three opening lines and
    one error entry are appended, the message is in [error] and
    [isFlashing] ends false. *)
Theorem flashFirmware_closed_port
    (host : Host) (fileData : list Byte.byte) (offset : option Z) (w : World)
    (p : SerialPort) :
  portRef w = Some p ->
  writable p = false ->
  let len := Z.of_nat (List.length fileData) in
  let off := match offset with Some o => o | None => 0x10000 end in
  let e := JsError "Port not writable" in
  let r := flashFirmware host fileData offset w in
  snd r = Throw e
  /\ attempts (fst r) = attempts w
  /\ sent (fst r) = sent w
  /\ isFlashing (state (fst r)) = false
  /\ error (state (fst r)) = Some "Port not writable"%string
  /\ progress (state (fst r)) =
     {| current := 0; total := len; percentage := Js.of_Z 0 |}
  /\ logs (state (fst r)) =
     last100 (logs (state w) ++ startLogs len off (clock w)
              ++ [errorLog e (clock w)]).
Proof.
  intros Hp Hw len off e r. subst r.
  rewrite (flashFirmware_port_not_writable host fileData offset w p Hp Hw).
  run_projections.
  repeat apply conj; try reflexivity.
  apply appendLogs_last100. cbn. discriminate.
Qed.

Lemma flashFirmware_closed_port_witness :
  snd (flashFirmware reliableHost [Byte.x41] (Some 0) disconnectedWorld)
  = Throw (JsError "Port not writable")
  /\ attempts (fst (flashFirmware reliableHost [Byte.x41] (Some 0)
                      disconnectedWorld)) = 0%nat.
Proof.
  destruct (flashFirmware_closed_port reliableHost [Byte.x41] (Some 0)
              disconnectedWorld closedPort eq_refl eq_refl)
    as (Hr & Ha & _).
  split; [exact Hr|exact Ha].
Defined.

(** ** Lengths and offsets beyond 32 bits *)

Lemma byte_of_low_32_bits (x k : Z) :
  0 <= k <= 24 ->
  ((x mod 2 ^ 32) / 2 ^ k) mod 256 = (x / 2 ^ k) mod 256.
Proof.
  intros Hk.
  rewrite (Z.div_mod x (2 ^ 32)) at 2 by lia.
  replace (2 ^ 32 * (x / 2 ^ 32) + x mod 2 ^ 32)
    with (x mod 2 ^ 32 + (2 ^ (32 - k) * (x / 2 ^ 32)) * 2 ^ k).
  - rewrite Z.div_add by (apply Z.pow_nonzero; lia).
    replace (2 ^ (32 - k)) with (2 ^ (24 - k) * 256)
      by (change 256 with (2 ^ 8); rewrite <- Z.pow_add_r by lia; f_equal; lia).
    replace ((x mod 2 ^ 32) / 2 ^ k + 2 ^ (24 - k) * 256 * (x / 2 ^ 32))
      with ((x mod 2 ^ 32) / 2 ^ k + (2 ^ (24 - k) * (x / 2 ^ 32)) * 256) by lia.
    now rewrite Z_mod_plus_full.
  - replace (2 ^ 32) with (2 ^ (32 - k) * 2 ^ k)
      by (rewrite <- Z.pow_add_r by lia; f_equal; lia).
    lia.
Qed.

Lemma flashBegin_low_32_bits (imageLen offset : Z) :
  flashBegin imageLen offset
  = flashBegin (imageLen mod 2 ^ 32) (offset mod 2 ^ 32).
Proof.
  unfold flashBegin, Js.Uint8Array. cbn [map].
  rewrite !and_shr_byte by lia.
  rewrite !byte_of_low_32_bits by lia. reflexivity.
Qed.

(** X9: [flashFirmware] never rejects a length or an offset that does not
    fit in 32 bits: the BEGIN frame carries its low 32 bits, so a receiver
    reads [imageLen mod 2^32] and [offset mod 2^32] (a negative offset is
    read as its two's complement). *)
Theorem flashBegin_wraps (imageLen offset : Z) :
  spec_decodeFlashBegin (flashBegin imageLen offset)
  = Some (imageLen mod 2 ^ 32, offset mod 2 ^ 32).
Proof.
  rewrite flashBegin_low_32_bits, flashBegin_bytes.
  unfold spec_decodeFlashBegin.
  change (Byte.eqb Byte.x02 Byte.x02) with true. cbv iota.
  rewrite !spec_le_value_bytes4 by (apply Z.mod_pos_bound; lia).
  reflexivity.
Qed.

(** ** Between calls *)

Lemma flashFirmware_ends_not_flashing
    (host : Host) (fileData : list Byte.byte) (offset : option Z) (w : World) :
  isFlashing (state w) = false ->
  isFlashing (state (fst (flashFirmware host fileData offset w))) = false.
Proof.
  intros Hf.
  destruct (portRef w) as [p|] eqn:Ep.
  - destruct (writable p) eqn:Ew.
    + destruct (flashFirmware_run_cases host fileData offset w)
        as [(w' & _ & Hrun & _ & _ & H & _)
           |(k & e & w' & _ & _ & _ & Hrun & _ & _ & H & _)];
        [exists p; auto|..]; rewrite Hrun; exact H.
    + rewrite (flashFirmware_port_not_writable host fileData offset w p Ep Ew).
      reflexivity.
  - unfold flashFirmware. rewrite Ep. exact Hf.
Qed.

Lemma call_keeps_invariant (c : Call) (w : World) :
  engine_invariant w -> engine_invariant (fst (call c w)).
Proof.
  intros (Hl & Hf & Hpr & Hc & Hr). unfold engine_invariant.
  destruct c as [host b|host|host fileData offset|message type|]; cbn [call].
  - destruct (connect_rejection host (baudRate_or_default b)) as [e|] eqn:E.
    + rewrite (connect_run_rejects host b w e E). run_fields.
      repeat apply conj;
        try assumption; try apply last100_length; try apply Hpr.
      intros Hcon. specialize (Hc Hcon).
      destruct (navigator_serial host); [destruct (requestPort host)|];
        try assumption; discriminate.
    + rewrite (connect_run_resolves host b w E). run_fields.
      repeat apply conj;
        try assumption; try apply last100_length; try apply Hpr.
      discriminate.
  - rewrite (disconnect_run host w (or_introl Hr)). run_fields.
    repeat apply conj;
      try assumption; try apply last100_length; try apply Hpr;
      try reflexivity.
    discriminate.
  - destruct (kept_flashFirmware host w fileData offset w) as (Hk1 & Hk2 & Hk3);
      [unfold kept; auto|].
    destruct (bounded_flashFirmware host fileData offset w) as (Hb1 & Hb2);
      [split; assumption|].
    repeat apply conj; try assumption.
    + apply flashFirmware_ends_not_flashing. exact Hf.
    + apply Hb2.
    + apply Hb2.
    + rewrite Hk1, Hk2. exact Hc.
    + rewrite Hk3. exact Hr.
  - rewrite addLog_logs. unfold addLog, setState. run_fields.
    repeat apply conj;
      try assumption; try apply last100_length; apply Hpr.
  - unfold clearLogs, setState. run_fields. cbn [List.length].
    repeat apply conj; try assumption; try apply Hpr. lia.
Qed.

Lemma initialWorld_invariant : engine_invariant initialWorld.
Proof.
  unfold engine_invariant. cbn.
  repeat apply conj; try reflexivity; try lia; discriminate.
Qed.

Lemma run_calls_invariant (cs : list Call) :
  forall w, engine_invariant w -> engine_invariant (run_calls cs w).
Proof.
  induction cs as [|c cs IH]; intros w Hw; [exact Hw|].
  cbn [run_calls]. apply IH. apply call_keeps_invariant. exact Hw.
Qed.

(** X18: after any sequence of [connect], [disconnect], [flashFirmware],
    [addLog] and [clearLogs] calls, each awaited before the next and
    whatever the host answered: the log holds at most 100 entries,
    [isFlashing] is false, [0 <= current <= total], a port object is held
    whenever [isConnected] is true, and no read cursor is held. *)
Theorem engine_invariant_reachable (cs : list Call) :
  let w := run_calls cs initialWorld in
  (List.length (logs (state w)) <= 100)%nat
  /\ isFlashing (state w) = false
  /\ 0 <= current (progress (state w)) <= total (progress (state w))
  /\ (isConnected (state w) = true -> portRef w <> None)
  /\ readerRef w = false.
Proof.
  exact (run_calls_invariant cs initialWorld initialWorld_invariant).
Qed.

Lemma engine_invariant_reachable_witness :
  let w := run_calls [Connect reliableHost None;
                      FlashFirmware (failingHost 1 "unplugged")
                                    (repeat Byte.x41 300) None]
                     initialWorld in
  isConnected (state w) = true
  /\ portRef w <> None
  /\ isFlashing (state w) = false.
Proof.
  intros w.
  destruct (engine_invariant_reachable
              [Connect reliableHost None;
               FlashFirmware (failingHost 1 "unplugged")
                             (repeat Byte.x41 300) None])
    as (_ & Hf & _ & Hc & _).
  assert (Hcon : isConnected (state w) = true) by reflexivity.
  repeat apply conj; [exact Hcon|exact (Hc Hcon)|exact Hf].
Defined.

(** X19: through the operations the hook returns, the read cursor is never
    taken, so [disconnect] never reaches a rejected [cancel]: after any
    sequence of calls, and whatever the host answers to [close],
    [disconnect] returns and leaves [isConnected] false. *)
Theorem disconnect_always_returns (cs : list Call) (host : Host) :
  snd (disconnect host (run_calls cs initialWorld)) = Return tt
  /\ isConnected (state (fst (disconnect host (run_calls cs initialWorld))))
     = false.
Proof.
  destruct (run_calls_invariant cs initialWorld initialWorld_invariant)
    as (_ & _ & _ & _ & Hr).
  rewrite (disconnect_run host _ (or_introl Hr)). split; reflexivity.
Qed.

(** X20: after any sequence of calls, when the component's flash button
    is enabled a port object is held, so a click never meets the
    not-connected guard of [flashFirmware]. *)
Theorem flash_button_enabled_port_held
    (cs : list Call) (selectedFile : bool)
    (host : Host) (fileData : list Byte.byte) (offset : option Z) :
  let w := run_calls cs initialWorld in
  flashButtonDisabled w selectedFile = false ->
  (exists p, portRef w = Some p)
  /\ flashFirmware host fileData offset w
     <> (w, Throw (JsError "Not connected to device")).
Proof.
  intros w H.
  destruct (run_calls_invariant cs initialWorld initialWorld_invariant)
    as (_ & Hf & _ & Hc & _). fold w in Hf, Hc.
  unfold flashButtonDisabled in H.
  destruct (isConnected (state w)); [|discriminate].
  destruct (portRef w) as [p|] eqn:Ep; [|exfalso; apply Hc; reflexivity].
  split; [exists p; reflexivity|].
  intros Heq.
  destruct (writable p) eqn:Ew.
  - destruct (flashFirmware_run_cases host fileData offset w)
      as [(w' & _ & Hrun & _)|(k & e & w' & _ & _ & _ & Hrun & _ & Ha & _)];
      [exists p; auto|..]; rewrite Hrun in Heq.
    + discriminate.
    + injection Heq as Hw He. rewrite Hw in Ha. lia.
  - rewrite (flashFirmware_port_not_writable host fileData offset w p Ep Ew)
      in Heq.
    discriminate.
Qed.

Lemma flash_button_enabled_port_held_witness :
  flashButtonDisabled (run_calls [Connect reliableHost None] initialWorld) true
  = false
  /\ exists p,
       portRef (run_calls [Connect reliableHost None] initialWorld) = Some p.
Proof.
  split; [reflexivity|].
  apply (flash_button_enabled_port_held [Connect reliableHost None] true
           reliableHost [] None).
  reflexivity.
Defined.

(** ** Calls one after the other *)

(** X17: from any world, a [connect] that succeeds followed by a
    [flashFirmware] whose frames the transport accepts sends the whole
    job and ends connected, not flashing, with [error] cleared and
    [current] at the image length; so does a reconnection after a
    [disconnect]. *)
Theorem connect_then_flashFirmware
    (host : Host) (baudRate : option Z) (fileData : list Byte.byte)
    (offset : option Z) (w : World) :
  connect_rejection host (baudRate_or_default baudRate) = None ->
  accepts host (attempts w) (chunkCount fileData + 2) ->
  let w1 := fst (connect host baudRate w) in
  let r := flashFirmware host fileData offset w1 in
  snd r = Return tt
  /\ sent (fst r) =
     sent w ++ frames fileData (match offset with Some o => o | None => 0x10000 end)
  /\ isConnected (state (fst r)) = true
  /\ isFlashing (state (fst r)) = false
  /\ error (state (fst r)) = None
  /\ current (progress (state (fst r))) = Z.of_nat (List.length fileData).
Proof.
  intros Hc Hacc w1 r. subst r w1.
  rewrite (connect_run_resolves host baudRate w Hc). cbn [fst].
  match goal with |- context [flashFirmware _ _ _ ?x] => set (w1 := x) end.
  destruct (flashFirmware_succeeds host fileData offset w1
              (chunkCount fileData))
    as (w' & Hrun & Hs & _ & Hcon & Hf & He & Hpr).
  - exists openPort. split; reflexivity.
  - apply chunkCount_covers.
  - apply chunkCount_tight.
  - exact Hacc.
  - rewrite Hrun. cbn [fst snd]. rewrite Hpr.
    repeat apply conj; try reflexivity; assumption.
Qed.

Lemma connect_then_flashFirmware_witness :
  let w1 := fst (connect reliableHost (Some 921600) disconnectedWorld) in
  let r := flashFirmware reliableHost (repeat Byte.x41 300) None w1 in
  isConnected (state disconnectedWorld) = false
  /\ snd r = Return tt
  /\ sent (fst r) = frames (repeat Byte.x41 300) 0x10000
  /\ isConnected (state (fst r)) = true.
Proof.
  intros w1 r.
  destruct (connect_then_flashFirmware reliableHost (Some 921600)
              (repeat Byte.x41 300) None disconnectedWorld)
    as (Hr & Hs & Hc & _).
  - reflexivity.
  - intros m _. reflexivity.
  - repeat apply conj; [reflexivity|exact Hr|exact Hs|exact Hc].
Defined.

(** X16: a job that failed does not block the next one: on a writable
    port, after any [flashFirmware] call, however it ended, a second call
    whose frames the transport accepts sends its whole job from the BEGIN
    frame on, clears [error] and ends at [{len, len, 100}]. *)
Theorem retry_after_failed_job
    (host1 host2 : Host) (fileData1 fileData2 : list Byte.byte)
    (offset1 offset2 : option Z) (w : World) :
  port_writable w ->
  let w1 := fst (flashFirmware host1 fileData1 offset1 w) in
  accepts host2 (attempts w1) (chunkCount fileData2 + 2) ->
  let r := flashFirmware host2 fileData2 offset2 w1 in
  snd r = Return tt
  /\ sent (fst r) =
     sent w1 ++ frames fileData2
                  (match offset2 with Some o => o | None => 0x10000 end)
  /\ error (state (fst r)) = None
  /\ isFlashing (state (fst r)) = false
  /\ progress (state (fst r)) =
     {| current := Z.of_nat (List.length fileData2);
        total := Z.of_nat (List.length fileData2);
        percentage := Js.of_Z 100 |}.
Proof.
  intros (p & Hport & Hwr) w1 Hacc r. subst r.
  destruct (kept_flashFirmware host1 w fileData1 offset1 w)
    as (_ & Hk & _); [unfold kept; auto|]. fold w1 in Hk.
  destruct (flashFirmware_succeeds host2 fileData2 offset2 w1
              (chunkCount fileData2))
    as (w' & Hrun & Hs & _ & _ & Hf & He & Hpr).
  - exists p. split; [congruence|exact Hwr].
  - apply chunkCount_covers.
  - apply chunkCount_tight.
  - exact Hacc.
  - rewrite Hrun. cbn [fst snd]. repeat apply conj; try reflexivity; assumption.
Qed.

Lemma retry_after_failed_job_witness :
  let w1 := fst (flashFirmware (failingHost 2 "unplugged")
                   (repeat Byte.x41 300) None connectedWorld) in
  let r := flashFirmware (failingHost 2 "unplugged")
             (repeat Byte.x41 300) None w1 in
  error (state w1) = Some "unplugged"%string
  /\ snd r = Return tt
  /\ error (state (fst r)) = None
  /\ List.length (sent (fst r)) = 6%nat.
Proof.
  intros w1 r.
  destruct (retry_after_failed_job
              (failingHost 2 "unplugged") (failingHost 2 "unplugged")
              (repeat Byte.x41 300) (repeat Byte.x41 300) None None
              connectedWorld)
    as (Hr & Hs & He & _).
  - exists openPort. split; reflexivity.
  - intros m Hm. change (chunkCount (repeat Byte.x41 300)) with 2%nat in Hm.
    destruct m as [|[|[|[|m]]]]; [reflexivity..|lia].
  - repeat apply conj; [reflexivity|exact Hr|exact He|].
    fold w1 r in Hs. rewrite Hs. reflexivity.
Defined.

(** X12: [connect] stores the port in [portRef] before it opens it. When
    the opening is rejected, [connect] throws and [isConnected] is as it
    was, yet the port the host handed out is held, so a [flashFirmware]
    call then passes its guard. On a port that is not open it fails with
    "Port not writable", without a write; on a port that was handed out
    open it goes on to the transport, and sends every frame when the
    transport accepts them. *)
Theorem connect_open_rejected_then_flashFirmware
    (host host' : Host) (baudRate : option Z) (e : JsValue)
    (port : SerialPort)
    (fileData : list Byte.byte) (offset : option Z) (w : World) :
  navigator_serial host = true ->
  requestPort host = PortGranted port ->
  port_open host (baudRate_or_default baudRate) = Some e ->
  let w1 := fst (connect host baudRate w) in
  let r := flashFirmware host' fileData offset w1 in
  snd (connect host baudRate w) = Throw e
  /\ isConnected (state w1) = isConnected (state w)
  /\ portRef w1 = Some port
  /\ (writable port = false ->
      snd r = Throw (JsError "Port not writable")
      /\ attempts (fst r) = attempts w
      /\ sent (fst r) = sent w)
  /\ (writable port = true ->
      (attempts w < attempts (fst r))%nat
      /\ (accepts host' (attempts w) (chunkCount fileData + 2) ->
          snd r = Return tt
          /\ sent (fst r) =
             sent w ++
             frames fileData
               (match offset with Some o => o | None => 0x10000 end))).
Proof.
  intros Hn Hq Ho w1 r. subst r w1.
  assert (E : connect_rejection host (baudRate_or_default baudRate) = Some e)
    by (unfold connect_rejection; now rewrite Hn, Hq).
  rewrite (connect_run_rejects host baudRate w e E). rewrite Hn, Hq.
  cbn [fst snd].
  match goal with |- context [flashFirmware _ _ _ ?x] => set (w1 := x) end.
  repeat apply conj; try reflexivity.
  - intros Hw.
    rewrite (flashFirmware_port_not_writable host' fileData offset w1 port
               eq_refl Hw).
    repeat apply conj; reflexivity.
  - intros Hw.
    destruct (flashFirmware_run_cases host' fileData offset w1)
      as [(w' & _ & Hrun & Hs & Ha & _)
         |(k & e' & w' & Hk & _ & Hrej & Hrun & _ & Ha & _)];
      [exists port; split; [reflexivity|exact Hw]|..];
      rewrite Hrun; cbn [fst snd].
    + split; [rewrite Ha; cbn [w1 attempts]; lia|].
      intros _. split; [reflexivity|exact Hs].
    + split; [rewrite Ha; cbn [w1 attempts]; lia|].
      intros Hacc. specialize (Hacc k Hk).
      cbn [w1 attempts] in Hrej. congruence.
Qed.

Lemma connect_open_rejected_then_flashFirmware_witness :
  let host := {| navigator_serial := true;
                 requestPort := PortGranted closedPort;
                 port_open := fun _ => Some (JsError "Failed to open serial port");
                 reader_cancel := None; port_close := None;
                 writer_write := fun _ => None |} in
  let again := {| navigator_serial := true;
                  requestPort := PortGranted openPort;
                  port_open := fun _ => Some (JsError "The port is already open.");
                  reader_cancel := None; port_close := None;
                  writer_write := fun _ => None |} in
  let w1 := fst (connect host None initialWorld) in
  let w2 := fst (connect again None connectedWorld) in
  isConnected (state w1) = false
  /\ snd (flashFirmware host [Byte.x41] None w1)
     = Throw (JsError "Port not writable")
  /\ (attempts connectedWorld
      < attempts (fst (flashFirmware again [Byte.x41] None w2)))%nat
  /\ sent (fst (flashFirmware again [Byte.x41] None w2))
     = [flashBegin 1 0x10000; chunkData [Byte.x41]; flashEnd].
Proof.
  intros host again w1 w2.
  destruct (connect_open_rejected_then_flashFirmware host host None
              (JsError "Failed to open serial port") closedPort [Byte.x41] None
              initialWorld eq_refl eq_refl eq_refl)
    as (_ & Hc & _ & Hclosed & _).
  destruct (connect_open_rejected_then_flashFirmware again again None
              (JsError "The port is already open.") openPort [Byte.x41] None
              connectedWorld eq_refl eq_refl eq_refl)
    as (_ & _ & _ & _ & Hopen).
  destruct (Hopen eq_refl) as [Hmore Hall].
  destruct Hall as [_ Hsent]; [intros m _; reflexivity|].
  repeat apply conj; [exact Hc|apply Hclosed; reflexivity|exact Hmore|].
  etransitivity; [exact Hsent|reflexivity].
Defined.
